(** * ffind: the traversal-and-match engine of [internal/searcher]

    A shallow embedding of [Search] and [processFile] together with the
    parts of the Go runtime they call ([strings], [unicode/utf8],
    [path/filepath.Walk]), and the properties of the engine stated over
    that embedding.

    Go strings are byte sequences: [gostring] is [list ascii].  Go [int]
    offsets and counters are [Z]; a line adds to a counter at most one more
    than its number of bytes, so no counter of the engine can come near
    2^63 and the wrap-around of [int] is not modelled. *)

From Stdlib Require Import ZArith List Bool Ascii String Lia.
Import ListNotations.
Local Open Scope Z_scope.

(** ** Byte strings *)

Definition gostring := list ascii.

Definition str (s : string) : gostring := list_ascii_of_string s.

Definition len {A : Type} (s : list A) : Z := Z.of_nat (List.length s).

Definition byteval (c : ascii) : Z := Z.of_N (N_of_ascii c).

(** [byte(z)]: the conversion keeps the low eight bits. *)
Definition mkbyte (z : Z) : ascii := ascii_of_N (Z.to_N (z mod 256)).

Fixpoint gostring_eqb (a b : gostring) : bool :=
  match a, b with
  | [], [] => true
  | c :: a', d :: b' => Ascii.eqb c d && gostring_eqb a' b'
  | _, _ => false
  end.

(** [s[lo:hi]]: Go panics unless [0 <= lo <= hi <= len(s)]; [None] is that
    panic. *)
Definition slice (s : gostring) (lo hi : Z) : option gostring :=
  if (0 <=? lo) && (lo <=? hi) && (hi <=? len s)
  then Some (firstn (Z.to_nat (hi - lo)) (skipn (Z.to_nat lo) s))
  else None.

(** [s[lo:]] *)
Definition slice_from (s : gostring) (lo : Z) : option gostring :=
  slice s lo (len s).

(** ** Package [strings] *)

Fixpoint hasPrefix (s prefix : gostring) : bool :=
  match prefix, s with
  | [], _ => true
  | c :: p', d :: s' => Ascii.eqb c d && hasPrefix s' p'
  | _ :: _, [] => false
  end.

Fixpoint indexFrom (s substr : gostring) (i : Z) : Z :=
  if hasPrefix s substr then i
  else match s with
       | [] => -1
       | _ :: s' => indexFrom s' substr (i + 1)
       end.

(** [strings.Index]: the offset of the first occurrence, or -1. *)
Definition strings_Index (s substr : gostring) : Z := indexFrom s substr 0.

(** [strings.Contains(s, substr)] is [Index(s, substr) >= 0]. *)
Definition strings_Contains (s substr : gostring) : bool :=
  0 <=? strings_Index s substr.

(** ** Package [unicode/utf8] *)

Definition RuneError : Z := 65533.

Definition isCont (b : Z) : bool := (128 <=? b) && (b <=? 191).

Definition between (lo b hi : Z) : bool := (lo <=? b) && (b <=? hi).

(** [utf8.DecodeRuneInString]: the rune at the head of [s] and its width.
    Overlong forms, surrogates and truncated sequences decode as
    [(RuneError, 1)]. *)
Definition decodeRune (s : gostring) : Z * nat :=
  match s with
  | [] => (RuneError, 0%nat)
  | c0 :: t =>
    let b0 := byteval c0 in
    if b0 <? 128 then (b0, 1%nat)
    else if between 194 b0 223 then
      match t with
      | c1 :: _ =>
        let b1 := byteval c1 in
        if isCont b1
        then (Z.lor (Z.shiftl (Z.land b0 31) 6) (Z.land b1 63), 2%nat)
        else (RuneError, 1%nat)
      | _ => (RuneError, 1%nat)
      end
    else if between 224 b0 239 then
      match t with
      | c1 :: c2 :: _ =>
        let b1 := byteval c1 in
        let b2 := byteval c2 in
        let lo := if b0 =? 224 then 160 else 128 in
        let hi := if b0 =? 237 then 159 else 191 in
        if between lo b1 hi && isCont b2
        then (Z.lor (Z.shiftl (Z.land b0 15) 12)
                (Z.lor (Z.shiftl (Z.land b1 63) 6) (Z.land b2 63)), 3%nat)
        else (RuneError, 1%nat)
      | _ => (RuneError, 1%nat)
      end
    else if between 240 b0 244 then
      match t with
      | c1 :: c2 :: c3 :: _ =>
        let b1 := byteval c1 in
        let b2 := byteval c2 in
        let b3 := byteval c3 in
        let lo := if b0 =? 240 then 144 else 128 in
        let hi := if b0 =? 244 then 143 else 191 in
        if between lo b1 hi && isCont b2 && isCont b3
        then (Z.lor (Z.shiftl (Z.land b0 7) 18)
                (Z.lor (Z.shiftl (Z.land b1 63) 12)
                   (Z.lor (Z.shiftl (Z.land b2 63) 6) (Z.land b3 63))), 4%nat)
        else (RuneError, 1%nat)
      | _ => (RuneError, 1%nat)
      end
    else (RuneError, 1%nat)
  end.

(** The runes a [for _, c := range s] loop yields; [skip] counts the bytes
    of the current rune still to be passed over. *)
Fixpoint runes (s : gostring) (skip : nat) : list Z :=
  match s with
  | [] => []
  | _ :: t =>
    match skip with
    | S k => runes t k
    | O => let (r, w) := decodeRune s in r :: runes t (Nat.pred w)
    end
  end.

(** [utf8.AppendRune]: surrogates and values outside the Unicode range are
    written as [RuneError]. *)
Definition encodeRune (r : Z) : gostring :=
  let r := if (r <? 0) || (1114111 <? r) || between 55296 r 57343
           then RuneError else r in
  if r <=? 127 then [mkbyte r]
  else if r <=? 2047 then
    [mkbyte (Z.lor 192 (Z.shiftr r 6)); mkbyte (Z.lor 128 (Z.land r 63))]
  else if r <=? 65535 then
    [mkbyte (Z.lor 224 (Z.shiftr r 12));
     mkbyte (Z.lor 128 (Z.land (Z.shiftr r 6) 63));
     mkbyte (Z.lor 128 (Z.land r 63))]
  else
    [mkbyte (Z.lor 240 (Z.shiftr r 18));
     mkbyte (Z.lor 128 (Z.land (Z.shiftr r 12) 63));
     mkbyte (Z.lor 128 (Z.land (Z.shiftr r 6) 63));
     mkbyte (Z.lor 128 (Z.land r 63))].

(** [strings.Map]: every rune of [s] is replaced by the encoding of its
    image, a negative image drops the rune.  (Go copies the prefix that the
    mapping leaves unchanged instead of re-encoding it; on well-formed
    sequences the two coincide, and an ill-formed byte is always rewritten
    as the image of [RuneError].) *)
Definition strings_Map (mapping : Z -> Z) (s : gostring) : gostring :=
  flat_map (fun c => let r := mapping c in
                     if r <? 0 then [] else encodeRune r)
           (runes s 0).

Definition isASCII (c : ascii) : bool := byteval c <? 128.

Definition asciiLower (c : ascii) : ascii :=
  if between 65 (byteval c) 90 then mkbyte (byteval c + 32) else c.

(** ** The Go library functions left abstract

    [unicode.ToLower] is a table lookup, [filepath.Join] is [Clean] of the
    joined elements, and package [regexp] is a whole engine: the search
    engine is verified for every implementation of them. *)
Class GoLib := {
  unicode_ToLower : Z -> Z;
  filepath_Join : gostring -> gostring -> gostring;
  RegexpT : Type;
  regexp_Compile : gostring -> option RegexpT;
  FindStringIndex : RegexpT -> gostring -> option (Z * Z);
  FindAllStringIndex : RegexpT -> gostring -> list (Z * Z)
}.

(** [strings.ToLower]: ASCII-only strings take the byte-wise fast path,
    everything else goes through [Map(unicode.ToLower, s)]. *)
Definition strings_ToLower `{GoLib} (s : gostring) : gostring :=
  if forallb isASCII s then map asciiLower s
  else strings_Map unicode_ToLower s.

(** ** Package [path/filepath] (Unix) *)

Definition isPathSeparator (c : ascii) : bool := Ascii.eqb c "/"%char.

Fixpoint dropWhile {A : Type} (f : A -> bool) (l : list A) : list A :=
  match l with
  | [] => []
  | x :: l' => if f x then dropWhile f l' else l
  end.

Fixpoint takeWhile {A : Type} (f : A -> bool) (l : list A) : list A :=
  match l with
  | [] => []
  | x :: l' => if f x then x :: takeWhile f l' else []
  end.

(** [filepath.Base]: the last element of the path, after removing trailing
    separators. *)
Definition filepath_Base (path : gostring) : gostring :=
  match path with
  | [] => str "."
  | _ =>
    let stripped := dropWhile isPathSeparator (rev path) in
    let last := rev (takeWhile (fun c => negb (isPathSeparator c)) stripped) in
    match last with
    | [] => str "/"
    | _ => last
    end
  end.

Fixpoint extRev (r acc : gostring) : gostring :=
  match r with
  | [] => []
  | c :: r' =>
    if isPathSeparator c then []
    else if Ascii.eqb c "."%char then c :: acc
    else extRev r' (c :: acc)
  end.

(** [filepath.Ext]: the suffix starting at the last dot of the last
    element; empty when there is no dot. *)
Definition filepath_Ext (path : gostring) : gostring := extRev (rev path) [].

(** ** The file system seen by [filepath.Walk]

    What [os.Lstat] and the directory listing report below the search
    root.  An entry of a directory is paired with the result of its
    [Lstat]: [None] when that call fails. *)
#[local] Unset Elimination Schemes.
Inductive Node :=
| NFile (regular : bool)
    (* not a directory; [regular] is [info.Mode().IsRegular()] *)
| NDirErr
    (* a directory whose names cannot be read *)
| NDir (entries : list (gostring * option Node)).
#[local] Set Elimination Schemes.

Record FileInfo := { IsDir : bool; IsRegular : bool }.

Definition infoOf (n : Node) : FileInfo :=
  match n with
  | NFile r => {| IsDir := false; IsRegular := r |}
  | NDirErr | NDir _ => {| IsDir := true; IsRegular := false |}
  end.

Inductive error :=
| SkipDir
| SkipAll
| ErrLstat (path : gostring)
| ErrReadDir (path : gostring).

Definition isSkipDir (e : error) : bool :=
  match e with SkipDir => true | _ => false end.

(** The two ways [filepath.Walk] calls its function: [fn(path, info, nil)],
    and [fn(path, info, err)] with a non-nil [err] ([info] is nil when the
    [Lstat] of [path] itself failed). *)
Inductive WalkArg :=
| Found (info : FileInfo)
| Failed (info : option FileInfo) (err : error).

(** A [filepath.WalkFunc] that sends on a channel: the channel's contents
    are threaded through the calls. *)
Definition WalkFunc : Type :=
  gostring -> WalkArg -> list gostring -> option error * list gostring.

Section Walk.
Context `{GoLib}.

(** [filepath.walk]: recursively descends [path].  The names of a
    directory are read before the function is called on it, and a failure
    to read them is passed to that one call (the form of Go 1.16 and
    later). *)
Fixpoint walk (walkFn : WalkFunc) (path : gostring) (node : Node)
         (q : list gostring) {struct node} : option error * list gostring :=
  match node with
  | NFile _ => walkFn path (Found (infoOf node)) q
  | NDirErr => walkFn path (Failed (Some (infoOf node)) (ErrReadDir path)) q
  | NDir entries =>
    let (err1, q1) := walkFn path (Found (infoOf node)) q in
    match err1 with
    | Some _ => (err1, q1)
    | None =>
      (fix loop (es : list (gostring * option Node)) (q : list gostring)
         {struct es} : option error * list gostring :=
         match es with
         | [] => (None, q)
         | (name, st) :: rest =>
           let filename := filepath_Join path name in
           match st with
           | None =>
             let (e, q') :=
               walkFn filename (Failed None (ErrLstat filename)) q in
             match e with
             | Some e' => if isSkipDir e' then loop rest q' else (Some e', q')
             | None => loop rest q'
             end
           | Some child =>
             let (e, q') := walk walkFn filename child q in
             match e with
             | Some e' =>
               if negb (IsDir (infoOf child)) || negb (isSkipDir e')
               then (Some e', q')
               else loop rest q'
             | None => loop rest q'
             end
           end
         end) entries q1
    end
  end.

(** [filepath.Walk(root, fn)]; [rootNode] is the result of [Lstat(root)]. *)
Definition filepath_Walk (root : gostring) (rootNode : option Node)
           (fn : WalkFunc) (q : list gostring)
  : option error * list gostring :=
  let (err, q') :=
    match rootNode with
    | None => fn root (Failed None (ErrLstat root)) q
    | Some node => walk fn root node q
    end in
  match err with
  | Some SkipDir | Some SkipAll => (None, q')
  | _ => (err, q')
  end.
End Walk.

(** ** [searcher.Config] *)
Record Config := {
  StartDir : gostring;
  Keyword : gostring;
  IgnoreCase : bool;
  Exts : list gostring;
  ExcludeDirs : list gostring;
  Workers : Z;
  Regexp : bool
}.

Section Searcher.
Context `{GoLib}.

(** The directory test of the walk function: [base == excl] for some
    entry of [cfg.ExcludeDirs]. *)
Definition excluded (cfg : Config) (path : gostring) : bool :=
  existsb (fun excl => gostring_eqb (filepath_Base path) excl)
          (ExcludeDirs cfg).

(** The extension test of the walk function: passes when [cfg.Exts] is
    empty or [ext == "." + strings.ToLower(e)] for some entry [e]. *)
Definition extAllowed (cfg : Config) (path : gostring) : bool :=
  if 0 <? len (Exts cfg) then
    let ext := strings_ToLower (filepath_Ext path) in
    existsb (fun e => gostring_eqb ext (str "." ++ strings_ToLower e))
            (Exts cfg)
  else true.

(** The function literal passed to [filepath.Walk] in [Search];
    [fileChan <- path] appends to the channel. *)
Definition walkFn (cfg : Config) : WalkFunc :=
  fun path arg fileChan =>
    match arg with
    | Failed _ _ => (None, fileChan)
    | Found info =>
      if IsDir info then
        if excluded cfg path then (Some SkipDir, fileChan)
        else (None, fileChan)
      else if negb (extAllowed cfg path) then (None, fileChan)
      else if IsRegular info then (None, fileChan ++ [path])
      else (None, fileChan)
    end.
End Searcher.

(** ** [processFile]: what is printed for one matching line

    The file header and the line number are printed with constant format
    strings and cannot fail; only the pieces of the line itself, which are
    slices of it, are modelled. *)

(** A piece of a printed line: [fmt.Print] of unmatched text, or the bold
    print of the slice [line[lo:hi]]. *)
Inductive Seg :=
| Plain (text : gostring)
| Bold (lo hi : Z) (text : gostring).

(** How the printing of a line ends: it completes, it panics on a slice out
    of range (after printing [segs]), or it never ends. *)
Inductive PrintResult :=
| Printed (segs : list Seg)
| Panicked (segs : list Seg)
| Hangs.

(** The highlighted spans of a printed line, in printing order. *)
Fixpoint spans (segs : list Seg) : list (Z * Z) :=
  match segs with
  | [] => []
  | Plain _ :: rest => spans rest
  | Bold lo hi _ :: rest => (lo, hi) :: spans rest
  end.

(** The rest of the line, [if pos < len(line) { Println("  " + line[pos:]) }
    else { Println() }]. *)
Definition printTail (line : gostring) (pos : Z) (acc : list Seg)
  : PrintResult :=
  if pos <? len line then
    match slice_from line pos with
    | Some rest => Printed (acc ++ [Plain (str "  " ++ rest)])
    | None => Panicked acc
    end
  else Printed acc.

(** The loop [for _, m := range allMatches] of regex mode. *)
Fixpoint regexLoop (line : gostring) (allMatches : list (Z * Z)) (pos : Z)
         (acc : list Seg) : PrintResult :=
  match allMatches with
  | [] => printTail line pos acc
  | (start, end_) :: rest =>
    match slice line pos start with
    | None => Panicked acc
    | Some pre =>
      let acc := acc ++ [Plain (str "  " ++ pre)] in
      match slice line start end_ with
      | None => Panicked acc
      | Some hit => regexLoop line rest end_ (acc ++ [Bold start end_ hit])
      end
    end
  end.

(** The [for { ... }] loop of literal mode; [kwLen] is [len(cfg.Keyword)].
    [None]: the loop is still running after [fuel] iterations; otherwise
    the segments printed and, when the loop is left by [break], the final
    value of [start]. *)
Fixpoint literalLoop (fuel : nat) (line lowerLine lowerKeyword : gostring)
         (kwLen start : Z) (acc : list Seg)
  : option (list Seg * option Z) :=
  match fuel with
  | O => None
  | S fuel' =>
    match slice_from lowerLine start with
    | None => Some (acc, None)
    | Some rest =>
      let idx := strings_Index rest lowerKeyword in
      if idx =? -1 then Some (acc, Some start)
      else
        let absIdx := start + idx in
        match slice line start absIdx with
        | None => Some (acc, None)
        | Some pre =>
          let acc := acc ++ [Plain (str "  " ++ pre)] in
          match slice line absIdx (absIdx + kwLen) with
          | None => Some (acc, None)
          | Some hit =>
            literalLoop fuel' line lowerLine lowerKeyword kwLen
                        (absIdx + kwLen)
                        (acc ++ [Bold absIdx (absIdx + kwLen) hit])
          end
        end
    end
  end.

Section ProcessFile.
Context `{GoLib}.

(** The highlighting of literal mode.  [len(lowerLine) + 2] iterations
    are enough for every non-empty keyword ([literalLoop_enough]
    below); with an empty keyword the loop never ends
    ([literalLoop_empty_keyword]). *)
Definition printLiteral (cfg : Config) (line : gostring) : PrintResult :=
  let lowerLine := strings_ToLower line in
  let lowerKeyword := strings_ToLower (Keyword cfg) in
  match literalLoop (S (S (List.length lowerLine))) line lowerLine
                    lowerKeyword (len (Keyword cfg)) 0 [] with
  | None => Hangs
  | Some (segs, None) => Panicked segs
  | Some (segs, Some start) => printTail line start segs
  end.

(** One iteration of [for scanner.Scan()]: the line is skipped
    ([continue]), or the locked block adds [k] to [*matchCount] and the
    line is printed. *)
Inductive LineStep :=
| NoMatch
| Hit (k : Z) (pr : PrintResult).

Definition processLine (cfg : Config) (re : option RegexpT)
           (line : gostring) : LineStep :=
  if Regexp cfg then
    match re with
    | None => NoMatch
    | Some re =>
      match FindStringIndex re line with
      | None => NoMatch
      | Some _ =>
        let allMatches := FindAllStringIndex re line in
        if len allMatches =? 0 then NoMatch
        else Hit (len allMatches) (regexLoop line allMatches 0 [])
      end
    end
  else
    let searchLine :=
      if IgnoreCase cfg then strings_ToLower line else line in
    let searchKeyword :=
      if IgnoreCase cfg then strings_ToLower (Keyword cfg)
      else Keyword cfg in
    if negb (strings_Contains searchLine searchKeyword) then NoMatch
    else Hit 1 (printLiteral cfg line).
End ProcessFile.

(** ** Shared totals and the scan of one file *)

(** [*matchCount] and [*fileCount], the two counters behind [mu]. *)
Record Totals := { matchCount : Z; fileCount : Z }.

(** The block between [mu.Lock()] and [mu.Unlock()], with [k] the amount
    added to [*matchCount]; returns the new [fileMatched] as well. *)
Definition locked (k : Z) (fileMatched : bool) (t : Totals) : Totals * bool :=
  let t1 := if fileMatched then t
            else {| matchCount := matchCount t; fileCount := fileCount t + 1 |} in
  ({| matchCount := matchCount t1 + k; fileCount := fileCount t1 |}, true).

(** What a call does: it returns, it panics, or it never returns. *)
Inductive Outcome (A : Type) :=
| Returns (a : A)
| Panics
| NeverReturns.
Arguments Returns {A} a.
Arguments Panics {A}.
Arguments NeverReturns {A}.

(** [os.Open] and [bufio.Scanner] on a path: [None] when the file cannot be
    opened, else the lines [scanner.Text()] yields, in order. *)
Record FileSystem := {
  fs_root : option Node;
  fs_open : gostring -> option (list gostring)
}.

Section SearchEngine.
Context `{GoLib}.

(** [for scanner.Scan() { ... }] from a given [fileMatched]. *)
Fixpoint scanLines (cfg : Config) (re : option RegexpT)
         (lines : list gostring) (fileMatched : bool) (t : Totals)
  : Outcome Totals :=
  match lines with
  | [] => Returns t
  | line :: rest =>
    match processLine cfg re line with
    | NoMatch => scanLines cfg re rest fileMatched t
    | Hit k pr =>
      let (t', fileMatched') := locked k fileMatched t in
      match pr with
      | Printed _ => scanLines cfg re rest fileMatched' t'
      | Panicked _ => Panics
      | Hangs => NeverReturns
      end
    end
  end.

(** The part of [processFile] before the scan loop: [None] when it
    returns at once (the file cannot be opened, or the pattern does not
    compile), else the compiled pattern and the lines to scan. *)
Definition openFile (cfg : Config) (fs : FileSystem) (path : gostring)
  : option (option RegexpT * list gostring) :=
  match fs_open fs path with
  | None => None
  | Some lines =>
    if Regexp cfg then
      let pattern := if IgnoreCase cfg then str "(?i)" ++ Keyword cfg
                     else Keyword cfg in
      match regexp_Compile pattern with
      | None => None
      | Some re => Some (Some re, lines)
      end
    else Some (None, lines)
  end.

Definition processFile (path : gostring) (cfg : Config) (fs : FileSystem)
           (t : Totals) : Outcome Totals :=
  match openFile cfg fs path with
  | None => Returns t
  | Some (re, lines) => scanLines cfg re lines false t
  end.

(** [if cfg.Workers <= 0 { cfg.Workers = 4 }] *)
Definition normalize (cfg : Config) : Config :=
  if Workers cfg <=? 0 then
    {| StartDir := StartDir cfg; Keyword := Keyword cfg;
       IgnoreCase := IgnoreCase cfg; Exts := Exts cfg;
       ExcludeDirs := ExcludeDirs cfg; Workers := 4;
       Regexp := Regexp cfg |}
  else cfg.

(** The paths sent on [fileChan] and the error of [filepath.Walk]. *)
Definition walkAll (cfg : Config) (fs : FileSystem)
  : option error * list gostring :=
  filepath_Walk (StartDir cfg) (fs_root fs) (walkFn cfg) [].

(** One worker receiving every path of the channel in turn. *)
Fixpoint drain (cfg : Config) (fs : FileSystem) (queue : list gostring)
         (t : Totals) : Outcome Totals :=
  match queue with
  | [] => Returns t
  | path :: rest =>
    match processFile path cfg fs t with
    | Returns t' => drain cfg fs rest t'
    | Panics => Panics
    | NeverReturns => NeverReturns
    end
  end.

(** The tail of [Search], after [wg.Wait()]. *)
Definition result (err : option error) (t : Totals)
  : Z * Z * option error :=
  match err with
  | Some e => (0, 0, Some e)
  | None => (matchCount t, fileCount t, None)
  end.

(** [Search] with the files scanned one after the other in channel order
    (the schedule of a single worker); [duration] is left out, and so is
    the local [keyword], which is assigned and never read.  The worker
    pool below gives the interleavings of several workers. *)
Definition Search (cfg : Config) (fs : FileSystem)
  : Outcome (Z * Z * option error) :=
  let cfg := normalize cfg in
  let (err, queue) := walkAll cfg fs in
  match drain cfg fs queue {| matchCount := 0; fileCount := 0 |} with
  | Returns t => Returns (result err t)
  | Panics => Panics
  | NeverReturns => NeverReturns
  end.

(** *** The worker pool

    A worker is between files, inside the scan loop of a file, or inside
    a print that never ends.  One step of a worker is: receive the next
    path and open it, or run one iteration of the scan loop (the locked
    block is atomic under [mu]), or leave the loop at end of file.  The
    walker is the only sender and the channel is first-in first-out, so
    the pool is started on the channel contents [walkAll] produces. *)
Inductive Worker :=
| Idle
| Scanning (re : option RegexpT) (lines : list gostring) (fileMatched : bool)
| Stuck (re : option RegexpT) (lines : list gostring) (fileMatched : bool).

Record Pool := {
  chan : list gostring;
  workers : list Worker;
  totals : Totals;
  crashed : bool
}.

Fixpoint setWorker (i : nat) (w : Worker) (ws : list Worker) : list Worker :=
  match ws, i with
  | [], _ => []
  | _ :: ws', O => w :: ws'
  | w0 :: ws', S i' => w0 :: setWorker i' w ws'
  end.

Definition step (cfg : Config) (fs : FileSystem) (i : nat) (p : Pool)
  : Pool :=
  if crashed p then p
  else
    match nth_error (workers p) i with
    | None | Some (Stuck _ _ _) => p
    | Some Idle =>
      match chan p with
      | [] => p
      | path :: rest =>
        let w := match openFile cfg fs path with
                 | None => Idle
                 | Some (re, lines) => Scanning re lines false
                 end in
        {| chan := rest; workers := setWorker i w (workers p);
           totals := totals p; crashed := false |}
      end
    | Some (Scanning re [] _) =>
      {| chan := chan p; workers := setWorker i Idle (workers p);
         totals := totals p; crashed := false |}
    | Some (Scanning re (line :: rest) fileMatched) =>
      match processLine cfg re line with
      | NoMatch =>
        {| chan := chan p;
           workers := setWorker i (Scanning re rest fileMatched) (workers p);
           totals := totals p; crashed := false |}
      | Hit k pr =>
        let (t', fileMatched') := locked k fileMatched (totals p) in
        match pr with
        | Printed _ =>
          {| chan := chan p;
             workers := setWorker i (Scanning re rest fileMatched')
                                  (workers p);
             totals := t'; crashed := false |}
        | Panicked _ =>
          {| chan := chan p;
             workers := setWorker i (Scanning re rest fileMatched')
                                  (workers p);
             totals := t'; crashed := true |}
        | Hangs =>
          {| chan := chan p;
             workers := setWorker i (Stuck re rest fileMatched') (workers p);
             totals := t'; crashed := false |}
        end
      end
    end.

(** A schedule names the worker that takes each successive step. *)
Definition run (cfg : Config) (fs : FileSystem) (sched : list nat)
           (p : Pool) : Pool :=
  fold_left (fun p i => step cfg fs i p) sched p.

Definition isIdle (w : Worker) : bool :=
  match w with Idle => true | _ => false end.

(** [wg.Wait()] returns: the channel is drained, every worker has left
    its loop, and no goroutine panicked. *)
Definition finished (p : Pool) : bool :=
  negb (crashed p) &&
  match chan p with [] => true | _ => false end &&
  forallb isIdle (workers p).

(** The pool [Search] starts: [cfg.Workers] workers after normalisation. *)
Definition startPool (cfg : Config) (fs : FileSystem) : Pool :=
  let cfg := normalize cfg in
  {| chan := snd (walkAll cfg fs);
     workers := repeat Idle (Z.to_nat (Workers cfg));
     totals := {| matchCount := 0; fileCount := 0 |};
     crashed := false |}.
End SearchEngine.

(** ** An implementation of the library interface

    Used to run the engine on concrete inputs: the lower-case table is the
    ASCII range and the pair U+023A / U+2C65 of Go's table, paths are joined
    with a separator, and a pattern is a literal, optionally behind the
    flag [(?i)]; any other use of a parenthesis is a syntax error. *)

(** The non-overlapping occurrences of a non-empty [sub] in [s], left to
    right, as [(start, end)] offsets counted from [pos]. *)
Fixpoint occurrencesOf (s sub : gostring) (pos : Z) (skip : nat)
  : list (Z * Z) :=
  match s with
  | [] => []
  | _ :: t =>
    match skip with
    | S k => occurrencesOf t sub (pos + 1) k
    | O =>
      if hasPrefix s sub
      then (pos, pos + len sub)
             :: occurrencesOf t sub (pos + 1) (Nat.pred (List.length sub))
      else occurrencesOf t sub (pos + 1) 0
    end
  end.

Definition sampleLower (r : Z) : Z :=
  if between 65 r 90 then r + 32
  else if r =? 570 then 11365
  else r.

Definition sampleCompile (pattern : gostring) : option (bool * gostring) :=
  if hasPrefix pattern (str "(?i)")
  then Some (true, skipn 4 pattern)
  else if strings_Contains pattern (str "(") then None
  else match pattern with
       | [] => None
       | _ => Some (false, pattern)
       end.

Definition sampleFindAll (re : bool * gostring) (s : gostring)
  : list (Z * Z) :=
  let (fold, lit) := re in
  if fold then occurrencesOf (map asciiLower s) (map asciiLower lit) 0 0
  else occurrencesOf s lit 0 0.

Definition sampleLib : GoLib := {|
  unicode_ToLower := sampleLower;
  filepath_Join := fun dir name => dir ++ str "/" ++ name;
  RegexpT := bool * gostring;
  regexp_Compile := sampleCompile;
  FindStringIndex := fun re s => hd_error (sampleFindAll re s);
  FindAllStringIndex := sampleFindAll
|}.

(** ** Specification-side definitions *)

(** Induction on a file tree: the property holds of a directory when it
    holds of every entry whose [Lstat] succeeds. *)
Section NodeInduction.
Variable P : Node -> Prop.
Hypothesis HFile : forall regular, P (NFile regular).
Hypothesis HDirErr : P NDirErr.
Hypothesis HDir :
  forall entries,
    Forall (fun e => match snd e with Some n => P n | None => True end)
           entries ->
    P (NDir entries).

Fixpoint Node_ind (n : Node) : P n :=
  match n with
  | NFile r => HFile r
  | NDirErr => HDirErr
  | NDir entries =>
    HDir entries
      ((fix all (es : list (gostring * option Node)) :
          Forall (fun e => match snd e with Some n => P n | None => True end)
                 es :=
          match es with
          | [] => Forall_nil _
          | (name, st) :: rest =>
            Forall_cons (name, st)
              (match st as o
                     return match o with Some n => P n | None => True end
               with
               | Some child => Node_ind child
               | None => I
               end)
              (all rest)
          end) entries)
  end.
End NodeInduction.

(** A non-directory found below the root: its path as [filepath.Walk]
    builds it, the paths of the directories that contain it (outermost
    first, the root included), and whether it is a regular file. *)
Record Occ := {
  occ_path : gostring;
  occ_dirs : list gostring;
  occ_regular : bool
}.

Section Occurrences.
Context `{GoLib}.

(** Every non-directory of the tree below a readable directory, in
    listing order, whatever the filters say. *)
Fixpoint occurrences (path : gostring) (node : Node) (dirs : list gostring)
         {struct node} : list Occ :=
  match node with
  | NFile r => [{| occ_path := path; occ_dirs := dirs; occ_regular := r |}]
  | NDirErr => []
  | NDir entries =>
    (fix each (es : list (gostring * option Node)) {struct es} : list Occ :=
       match es with
       | [] => []
       | (name, st) :: rest =>
         match st with
         | None => each rest
         | Some child =>
           occurrences (filepath_Join path name) child (dirs ++ [path])
             ++ each rest
         end
       end) entries
  end.

(** No directory containing the file has an excluded base name. *)
Definition outsideExcluded (cfg : Config) (o : Occ) : bool :=
  forallb (fun d => negb (excluded cfg d)) (occ_dirs o).

(** The file is a candidate: outside every excluded directory, with an
    allowed extension, and regular. *)
Definition candidate (cfg : Config) (o : Occ) : bool :=
  outsideExcluded cfg o && extAllowed cfg (occ_path o) && occ_regular o.

(** What the lines still to scan add to the totals when every print
    completes: the sum of the amounts of the locked blocks, and one file
    unless the file already matched. *)
Fixpoint owedLines (cfg : Config) (re : option RegexpT)
         (lines : list gostring) (fileMatched : bool) : Z * Z :=
  match lines with
  | [] => (0, 0)
  | line :: rest =>
    match processLine cfg re line with
    | NoMatch => owedLines cfg re rest fileMatched
    | Hit k _ =>
      let (m, f) := owedLines cfg re rest true in
      (k + m, (if fileMatched then 0 else 1) + f)
    end
  end.

Definition owedFile (cfg : Config) (fs : FileSystem) (path : gostring)
  : Z * Z :=
  match openFile cfg fs path with
  | None => (0, 0)
  | Some (re, lines) => owedLines cfg re lines false
  end.

Definition owedWorker (cfg : Config) (w : Worker) : Z * Z :=
  match w with
  | Idle => (0, 0)
  | Scanning re lines fm | Stuck re lines fm => owedLines cfg re lines fm
  end.

Definition addPair (a b : Z * Z) : Z * Z := (fst a + fst b, snd a + snd b).

Definition sumPairs (l : list (Z * Z)) : Z * Z :=
  fold_right addPair (0, 0) l.

(** The totals of a pool plus everything its workers and its channel
    still owe. *)
Definition projected (cfg : Config) (fs : FileSystem) (p : Pool) : Z * Z :=
  addPair (matchCount (totals p), fileCount (totals p))
          (addPair (sumPairs (map (owedWorker cfg) (workers p)))
                   (sumPairs (map (owedFile cfg fs) (chan p)))).
End Occurrences.

Section Candidates.
Context `{GoLib}.

(** The non-directories below the search root. *)
Definition rootOccurrences (cfg : Config) (fs : FileSystem) : list Occ :=
  match fs_root fs with
  | Some node => occurrences (StartDir cfg) node []
  | None => []
  end.

(** The paths of the candidate files, in listing order. *)
Definition candidates (cfg : Config) (fs : FileSystem) : list gostring :=
  map occ_path (filter (candidate cfg) (rootOccurrences cfg fs)).
End Candidates.

(** The two counters as a pair, [matchCount] first. *)
Definition pairOf (t : Totals) : Z * Z := (matchCount t, fileCount t).

(** The pool of a search after the steps of a schedule. *)
Definition searchRun `{GoLib} (cfg : Config) (fs : FileSystem)
           (sched : list nat) : Pool :=
  run (normalize cfg) fs sched (startPool cfg fs).

(** ** Sample inputs *)

Definition sampleConfig (keyword : string) (ignoreCase useRegexp : bool)
  : Config :=
  {| StartDir := str "root"; Keyword := str keyword;
     IgnoreCase := ignoreCase; Exts := [];
     ExcludeDirs := [str ".git"; str "node_modules"; str "vendor"];
     Workers := 0; Regexp := useRegexp |}.

Definition withWorkers (cfg : Config) (n : Z) : Config :=
  {| StartDir := StartDir cfg; Keyword := Keyword cfg;
     IgnoreCase := IgnoreCase cfg; Exts := Exts cfg;
     ExcludeDirs := ExcludeDirs cfg; Workers := n; Regexp := Regexp cfg |}.

Definition withExts (cfg : Config) (exts : list gostring) : Config :=
  {| StartDir := StartDir cfg; Keyword := Keyword cfg;
     IgnoreCase := IgnoreCase cfg; Exts := exts;
     ExcludeDirs := ExcludeDirs cfg; Workers := Workers cfg;
     Regexp := Regexp cfg |}.

(** A root directory with two source files, an excluded directory holding
    files at two depths, a symbolic link, an entry whose [Lstat] fails, an
    unreadable directory and a readable one. *)
Definition sampleTree : Node :=
  NDir [(str "a.GO", Some (NFile true));
        (str "a.txt", Some (NFile true));
        (str "vendor",
         Some (NDir [(str "x.go", Some (NFile true));
                     (str "sub", Some (NDir [(str "y.go", Some (NFile true))]))]));
        (str "ln", Some (NFile false));
        (str "gone", None);
        (str "locked", Some NDirErr);
        (str "src", Some (NDir [(str "m.md", Some (NFile true))]))].

(** Every file that can be opened holds the same three lines. *)
Definition sampleFS : FileSystem :=
  {| fs_root := Some sampleTree;
     fs_open := fun _ => Some [str "hello aa aa"; str "zz"; str "Hello"] |}.

(** Two schedules for the sample search: one worker taking fifteen steps,
    and three workers taking turns. *)
Definition sampleSchedule1 : list nat := repeat 0%nat 15.

Definition sampleSchedule3 : list nat :=
  List.concat (repeat [0%nat; 1%nat; 2%nat] 5).

(** The three bytes of U+023A followed by [x]; U+023A is two bytes long
    and its lower case U+2C65 is three. *)
Definition strokeLine : gostring := [mkbyte 200; mkbyte 186; mkbyte 120].

(** ** Printed lines as text and as spans *)

(** The text of a printed piece without the two spaces [processFile] puts
    in front of unmatched text. *)
Definition segText (seg : Seg) : gostring :=
  match seg with
  | Plain text => skipn 2 text
  | Bold _ _ text => text
  end.

Definition lineText (segs : list Seg) : gostring := flat_map segText segs.

(** Spans that follow each other from [pos] on without overlap and end by
    [limit]. *)
Fixpoint spansInOrder (pos : Z) (sp : list (Z * Z)) (limit : Z) : Prop :=
  match sp with
  | [] => pos <= limit
  | (lo, hi) :: rest => pos <= lo /\ lo <= hi /\ spansInOrder hi rest limit
  end.

(** Every bold piece is the slice of the line its offsets name. *)
Fixpoint boldAreSlices (line : gostring) (segs : list Seg) : Prop :=
  match segs with
  | [] => True
  | Plain _ :: rest => boldAreSlices line rest
  | Bold lo hi text :: rest =>
    slice line lo hi = Some text /\ boldAreSlices line rest
  end.

Definition asciiOnly (s : gostring) : bool := forallb isASCII s.

(** The facts that hold of the pieces printed so far when the cursor is at
    [pos]: they spell [line[0:pos]], the bold ones are the slices their
    offsets name, and the spans are in order up to [pos]. *)
Definition printedUpTo (line : gostring) (segs : list Seg) (pos : Z) : Prop :=
  slice line 0 pos = Some (lineText segs)
  /\ boldAreSlices line segs
  /\ spansInOrder 0 (spans segs) pos.

(** The line test of literal mode: [strings.Contains(searchLine,
    searchKeyword)]. *)
Definition literalMatch `{GoLib} (cfg : Config) (line : gostring) : bool :=
  if IgnoreCase cfg
  then strings_Contains (strings_ToLower line) (strings_ToLower (Keyword cfg))
  else strings_Contains line (Keyword cfg).

(** ** The work left in a pool

    The steps a worker still has to take for a file it is scanning (one
    for each line and one to leave the loop), and the steps a path of the
    channel will cost (one more, to receive and open it). *)
Section WorkLeft.
Context `{GoLib}.

Definition workerLeft (w : Worker) : nat :=
  match w with
  | Idle => 0
  | Scanning _ lines _ => S (List.length lines)
  | Stuck _ _ _ => 0
  end.

Definition fileWeight (cfg : Config) (fs : FileSystem) (path : gostring)
  : nat :=
  match openFile cfg fs path with
  | None => 1
  | Some (_, lines) => S (S (List.length lines))
  end.

Definition poolLeft (cfg : Config) (fs : FileSystem) (p : Pool) : nat :=
  list_sum (map workerLeft (workers p))
  + list_sum (map (fileWeight cfg fs) (chan p)).

Definition isStuck (w : Worker) : bool :=
  match w with Stuck _ _ _ => true | _ => false end.
End WorkLeft.

(** ** Package [cmd]: the [Run] function of [rootCmd]

    [Run] prints through [fmt]; its own prints are recorded as a list of
    [Output], durations left out.  (What [processFile] prints while a
    search runs is the subject of the sections above and is not repeated
    here.) *)
Module Cmd.

(** The package-level flag variables, as [init] binds them. *)
Record Flags := {
  dir : gostring;
  ignoreCase : bool;
  exts : list gostring;
  excludeDirs : list gostring;
  workers : Z;
  useRegexp : bool
}.

(** The defaults [init] gives the flags. *)
Definition defaultFlags : Flags :=
  {| dir := str "."; ignoreCase := false; exts := [];
     excludeDirs := [str ".git"; str "node_modules"; str "vendor"];
     workers := 0; useRegexp := false |}.

(** [os.Stat(path)]: success, an error for which [os.IsNotExist] holds, or
    another error. *)
Inductive StatResult := StatOk | StatNotExist | StatError.

(** What [Run] sees of the machine: [os.Stat] on a path, and the file
    system a search started at that path walks and opens. *)
Record World := {
  os_Stat : gostring -> StatResult;
  fsAt : gostring -> FileSystem
}.

Inductive Output :=
| PathNotExist (path : gostring)      (* the "path does not exist" line *)
| Separator                           (* [fmt.Println()] between paths *)
| SearchingPath (path : gostring)     (* the "search path" line *)
| SearchError (err : error)           (* the "error" line *)
| PathSummary (matches files : Z)     (* the summary of one path *)
| TotalBanner                         (* the banner of the grand total *)
| TotalFound (matches files : Z)      (* the counts of the grand total *)
| TotalDuration                       (* the duration of the grand total *)
| Found (matches files : Z)           (* the counts, one search path *)
| Duration.                           (* the duration, one search path *)

(** The variables of the loop over [searchPaths]. *)
Record LoopState := {
  totalMatches : Z;
  totalFiles : Z;
  first : bool;
  printed : list Output
}.

Section Run.
Context `{GoLib}.
Variables (flags : Flags) (world : World).

(** The [searcher.Config] [Run] builds for one path. *)
Definition configFor (keyword path : gostring) : Config :=
  {| StartDir := path; Keyword := keyword; IgnoreCase := ignoreCase flags;
     Exts := exts flags; ExcludeDirs := excludeDirs flags;
     Workers := workers flags; Regexp := useRegexp flags |}.

(** [for _, path := range searchPaths { ... }] *)
Fixpoint searchLoop (keyword : gostring) (searchPaths : list gostring)
         (st : LoopState) : Outcome LoopState :=
  match searchPaths with
  | [] => Returns st
  | path :: rest =>
    match os_Stat world path with
    | StatNotExist =>
      searchLoop keyword rest
        {| totalMatches := totalMatches st; totalFiles := totalFiles st;
           first := first st;
           printed := printed st ++ [PathNotExist path] |}
    | StatOk | StatError =>
      let out := if first st then printed st else printed st ++ [Separator] in
      let out := out ++ [SearchingPath path] in
      match Search (configFor keyword path) (fsAt world path) with
      | Returns (matches, files, Some err) =>
        searchLoop keyword rest
          {| totalMatches := totalMatches st; totalFiles := totalFiles st;
             first := false; printed := out ++ [SearchError err] |}
      | Returns (matches, files, None) =>
        searchLoop keyword rest
          {| totalMatches := totalMatches st + matches;
             totalFiles := totalFiles st + files;
             first := false;
             printed := out ++ [PathSummary matches files] |}
      | Panics => Panics
      | NeverReturns => NeverReturns
      end
    end
  end.

(** The lines after the loop. *)
Definition summary (searchPaths : list gostring) (st : LoopState)
  : list Output :=
  if 1 <? len searchPaths then
    [TotalBanner; TotalFound (totalMatches st) (totalFiles st); TotalDuration]
  else if len searchPaths =? 1 then
    [Found (totalMatches st) (totalFiles st); Duration]
  else [].

(** [args[1:]] when there is more than one argument, else the current
    directory. *)
Definition searchPathsOf (args : list gostring) : list gostring :=
  if 1 <? len args then tl args else [str "."].

(** The [Run] function.  [args[0]] panics on an empty argument list, which
    [cobra.MinimumNArgs(1)] rejects before [Run] is called. *)
Definition Run (args : list gostring) : Outcome (list Output) :=
  match args with
  | [] => Panics
  | keyword :: _ =>
    let searchPaths := searchPathsOf args in
    match searchLoop keyword searchPaths
            {| totalMatches := 0; totalFiles := 0; first := true;
               printed := [] |} with
    | Returns st => Returns (printed st ++ summary searchPaths st)
    | Panics => Panics
    | NeverReturns => NeverReturns
    end
  end.

(** The paths [Run] goes on to search: all but those [os.Stat] reports
    missing. *)
Definition searched (searchPaths : list gostring) : list gostring :=
  filter (fun path => match os_Stat world path with
                      | StatNotExist => false
                      | _ => true
                      end) searchPaths.

(** The counts a search of one path returns. *)
Definition countsOf (keyword path : gostring) : Z * Z :=
  match Search (configFor keyword path) (fsAt world path) with
  | Returns (matches, files, _) => (matches, files)
  | _ => (0, 0)
  end.
End Run.

(** The paths named by the "search path" lines of an output. *)
Fixpoint announced (out : list Output) : list gostring :=
  match out with
  | [] => []
  | SearchingPath path :: rest => path :: announced rest
  | _ :: rest => announced rest
  end.

Definition isSearchError (o : Output) : bool :=
  match o with SearchError _ => true | _ => false end.

Definition isSeparator (o : Output) : bool :=
  match o with Separator => true | _ => false end.

(** A world for the examples: the path [gone] is missing, every other path
    holds the sample tree. *)
Definition sampleWorld : World :=
  {| os_Stat := fun path => if gostring_eqb path (str "gone")
                            then StatNotExist else StatOk;
     fsAt := fun _ => sampleFS |}.
End Cmd.

(** The flags with another value for [--dir]. *)
Definition withDir (flags : Cmd.Flags) (d : gostring) : Cmd.Flags :=
  {| Cmd.dir := d; Cmd.ignoreCase := Cmd.ignoreCase flags;
     Cmd.exts := Cmd.exts flags; Cmd.excludeDirs := Cmd.excludeDirs flags;
     Cmd.workers := Cmd.workers flags; Cmd.useRegexp := Cmd.useRegexp flags |}.

(** The lines [Run] ends with for given totals: the grand total when two
    or more paths were named, else the short form. *)
Definition closingLines (paths : list gostring) (total : Z * Z)
  : list Cmd.Output :=
  match paths with
  | _ :: _ :: _ =>
    [Cmd.TotalBanner; Cmd.TotalFound (fst total) (snd total);
     Cmd.TotalDuration]
  | _ => [Cmd.Found (fst total) (snd total); Cmd.Duration]
  end.

(** The matches a line counts for in regex mode: those of
    [FindAllStringIndex], provided [FindStringIndex] finds one. *)
Definition regexMatches `{GoLib} (re : RegexpT) (line : gostring) : Z :=
  match FindStringIndex re line with
  | None => 0
  | Some _ => len (FindAllStringIndex re line)
  end.

Definition list_sum_Z (l : list Z) : Z := fold_right Z.add 0 l.

(** ** Scans that cannot complete *)
Section Doomed.
Context `{GoLib}.

(** The print of the line panics or never ends. *)
Definition lineFails (cfg : Config) (re : option RegexpT) (line : gostring)
  : bool :=
  match processLine cfg re line with
  | NoMatch | Hit _ (Printed _) => false
  | Hit _ (Panicked _) | Hit _ Hangs => true
  end.

Definition fileFails (cfg : Config) (fs : FileSystem) (path : gostring)
  : bool :=
  match openFile cfg fs path with
  | None => false
  | Some (re, lines) => existsb (lineFails cfg re) lines
  end.

Definition workerFails (cfg : Config) (w : Worker) : bool :=
  match w with
  | Idle => false
  | Scanning re lines _ => existsb (lineFails cfg re) lines
  | Stuck _ _ _ => true
  end.

(** A pool that has crashed, or holds a line that will stop a worker. *)
Definition doomed (cfg : Config) (fs : FileSystem) (p : Pool) : bool :=
  crashed p || existsb (workerFails cfg) (workers p)
  || existsb (fileFails cfg fs) (chan p).
End Doomed.

(** The lines of a file, none when it cannot be opened. *)
Definition fileLines (fs : FileSystem) (path : gostring) : list gostring :=
  match fs_open fs path with
  | Some lines => lines
  | None => []
  end.

(** * Properties *)

(** ** Byte strings and [strings.Index] *)

Lemma len_nonneg {A : Type} (s : list A) : 0 <= len s.
Proof. unfold len. lia. Qed.

Lemma len_app {A : Type} (s t : list A) : len (s ++ t) = len s + len t.
Proof. unfold len. rewrite length_app. lia. Qed.

Lemma slice_from_Some s lo rest :
  slice_from s lo = Some rest -> 0 <= lo <= len s /\ len rest = len s - lo.
Proof.
  unfold slice_from, slice.
  destruct ((0 <=? lo) && (lo <=? len s) && (len s <=? len s)) eqn:E;
    [|discriminate].
  intros [= <-].
  apply andb_true_iff in E as [E _]. apply andb_true_iff in E as [E1 E2].
  apply Z.leb_le in E1, E2. split; [lia|].
  unfold len in *. rewrite length_firstn, length_skipn. lia.
Qed.

Lemma hasPrefix_len s p : hasPrefix s p = true -> len p <= len s.
Proof.
  revert s. induction p as [|c p IH]; intros s Hp.
  - apply len_nonneg.
  - destruct s as [|d s]; [discriminate|].
    simpl in Hp. apply andb_true_iff in Hp as [_ Hp].
    apply IH in Hp. unfold len in *. simpl. lia.
Qed.

(** [Index] answers -1 or an offset at which the substring fits. *)
Lemma indexFrom_range s substr i :
  indexFrom s substr i = -1 \/
  (i <= indexFrom s substr i /\
   indexFrom s substr i - i + len substr <= len s).
Proof.
  revert i. induction s as [|c s IH]; intros i; cbn [indexFrom].
  - destruct substr; simpl; [right|left; reflexivity].
    unfold len; simpl. lia.
  - destruct (hasPrefix (c :: s) substr) eqn:E.
    + right. apply hasPrefix_len in E. lia.
    + destruct (IH (i + 1)) as [->|[H1 H2]]; [left; reflexivity|right].
      unfold len in *. cbn [List.length]. lia.
Qed.

Lemma strings_Index_range s substr :
  strings_Index s substr = -1 \/
  (0 <= strings_Index s substr /\
   strings_Index s substr + len substr <= len s).
Proof.
  unfold strings_Index.
  destruct (indexFrom_range s substr 0) as [->|[H1 H2]]; [left|right]; lia.
Qed.

(** ** The highlighting loop of literal mode *)

Section LiteralLoop.
Variables (line lowerLine lowerKeyword : gostring) (kwLen : Z).

(** One iteration either leaves the loop (by [break] or by a panic),
    whatever the fuel, or continues with the cursor moved forward by at
    least [kwLen]. *)
Lemma literalLoop_iteration start acc :
  (exists r, forall fuel,
      literalLoop (S fuel) line lowerLine lowerKeyword kwLen start acc
      = Some r)
  \/ (exists start' acc',
         start + kwLen <= start' /\
         forall fuel,
           literalLoop (S fuel) line lowerLine lowerKeyword kwLen start acc
           = literalLoop fuel line lowerLine lowerKeyword kwLen start' acc').
Proof.
  cbn [literalLoop].
  destruct (slice_from lowerLine start) as [rest|] eqn:Hrest;
    [|left; eexists; reflexivity].
  destruct (strings_Index_range rest lowerKeyword) as [E|[Hidx _]].
  - rewrite E. left. eexists. reflexivity.
  - destruct (strings_Index rest lowerKeyword =? -1) eqn:E;
      [left; eexists; reflexivity|].
    destruct (slice line start (start + strings_Index rest lowerKeyword));
      [|left; eexists; reflexivity].
    destruct (slice line (start + strings_Index rest lowerKeyword)
                    (start + strings_Index rest lowerKeyword + kwLen));
      [|left; eexists; reflexivity].
    right. do 2 eexists. split; [|reflexivity]. lia.
Qed.

(** With a keyword of at least one byte the loop is over within
    [len(lowerLine) - start + 2] iterations. *)
Lemma literalLoop_enough fuel :
  1 <= kwLen ->
  forall start acc,
    (1 <= fuel)%nat ->
    len lowerLine - start + 2 <= Z.of_nat fuel ->
    exists r,
      literalLoop fuel line lowerLine lowerKeyword kwLen start acc = Some r.
Proof.
  intros Hk. induction fuel as [|fuel IH]; intros start acc H1 H2; [lia|].
  destruct (slice_from lowerLine start) as [rest|] eqn:Hrest.
  - destruct (literalLoop_iteration start acc)
      as [[r Hr]|(start' & acc' & Hadv & Hr)].
    + exists r. apply Hr.
    + rewrite Hr. apply slice_from_Some in Hrest as [Hs _].
      apply IH; lia.
  - cbn [literalLoop]. rewrite Hrest. eexists. reflexivity.
Qed.

(** A finished loop gives the same answer with more fuel. *)
Lemma literalLoop_more_fuel fuel :
  forall fuel' start acc r,
    literalLoop fuel line lowerLine lowerKeyword kwLen start acc = Some r ->
    (fuel <= fuel')%nat ->
    literalLoop fuel' line lowerLine lowerKeyword kwLen start acc = Some r.
Proof.
  induction fuel as [|fuel IH]; intros fuel' start acc r Hr Hle;
    [discriminate|].
  destruct fuel' as [|fuel']; [lia|].
  destruct (literalLoop_iteration start acc)
    as [[r' Hr']|(start' & acc' & _ & Hstep)].
  - rewrite Hr' in *. exact Hr.
  - rewrite Hstep in *. apply IH; [exact Hr|lia].
Qed.

(** With an empty keyword the cursor never moves: the loop does not end. *)
Lemma literalLoop_empty_keyword fuel :
  lowerKeyword = [] -> kwLen = 0 ->
  forall start acc,
    0 <= start -> start <= len line -> start <= len lowerLine ->
    literalLoop fuel line lowerLine lowerKeyword kwLen start acc = None.
Proof.
  intros -> ->. induction fuel as [|fuel IH]; intros start acc H0 H1 H2;
    [reflexivity|].
  cbn [literalLoop].
  unfold slice_from, slice.
  replace ((0 <=? start) && (start <=? len lowerLine)
           && (len lowerLine <=? len lowerLine)) with true
    by (symmetry; rewrite !andb_true_iff, !Z.leb_le; lia).
  replace (strings_Index _ []) with 0
    by (unfold strings_Index;
        destruct (firstn _ _); reflexivity).
  cbn [Z.eqb]. rewrite !Z.add_0_r.
  replace ((0 <=? start) && (start <=? start) && (start <=? len line))
    with true by (symmetry; rewrite !andb_true_iff, !Z.leb_le; lia).
  apply IH; assumption.
Qed.
End LiteralLoop.

Lemma strings_ToLower_nil `{GoLib} : strings_ToLower [] = [].
Proof. reflexivity. Qed.

(** [printLiteral] answers [Hangs] exactly when the loop of the source does
    not end: never for a non-empty keyword, always for the empty one. *)
Lemma printLiteral_empty_keyword `{GoLib} (cfg : Config) (line : gostring) :
  Keyword cfg = [] -> printLiteral cfg line = Hangs.
Proof.
  intros Hk. unfold printLiteral. rewrite Hk, strings_ToLower_nil.
  rewrite literalLoop_empty_keyword; try reflexivity; try lia;
    apply len_nonneg.
Qed.

(** C10: in literal mode, for every non-empty keyword and every line, the
    highlighting loop of [processFile] terminates.  The keyword has at
    least one byte; each iteration either leaves the loop or moves the
    cursor forward by at least [len(cfg.Keyword)]; the loop is over within
    [len(lowerLine) + 2] iterations with an answer that more iterations do
    not change; so the printing of the line never hangs. *)
Theorem literal_highlight_terminates `{GoLib} (cfg : Config) (line : gostring) :
  Keyword cfg <> [] ->
  let lowerLine := strings_ToLower line in
  let lowerKeyword := strings_ToLower (Keyword cfg) in
  let kwLen := len (Keyword cfg) in
  1 <= kwLen
  /\ (forall start acc,
         (exists r, forall fuel,
             literalLoop (S fuel) line lowerLine lowerKeyword kwLen start acc
             = Some r)
         \/ (exists start' acc',
                start + kwLen <= start' /\
                forall fuel,
                  literalLoop (S fuel) line lowerLine lowerKeyword kwLen
                              start acc
                  = literalLoop fuel line lowerLine lowerKeyword kwLen
                                start' acc'))
  /\ (exists r, forall fuel,
         (List.length lowerLine + 2 <= fuel)%nat ->
         literalLoop fuel line lowerLine lowerKeyword kwLen 0 [] = Some r)
  /\ printLiteral cfg line <> Hangs.
Proof.
  intros Hne lowerLine lowerKeyword kwLen.
  assert (Hk : 1 <= kwLen).
  { subst kwLen. unfold len. destruct (Keyword cfg); [congruence|].
    cbn [List.length]. lia. }
  destruct (literalLoop_enough line lowerLine lowerKeyword kwLen
              (S (S (List.length lowerLine))) Hk 0 [])
    as [r Hr]; [lia|unfold len; lia|].
  split; [exact Hk|]. split; [apply literalLoop_iteration|]. split.
  - exists r. intros fuel Hfuel.
    apply (literalLoop_more_fuel _ _ _ _ _ _ _ _ _ Hr). lia.
  - unfold printLiteral. fold lowerLine lowerKeyword kwLen. rewrite Hr.
    destruct r as [segs [start|]]; [|discriminate].
    unfold printTail. destruct (start <? len line); [|discriminate].
    destruct (slice_from line start); discriminate.
Qed.

Lemma literal_highlight_terminates_witness :
  Keyword (sampleConfig "hello" true false) <> []
  /\ @printLiteral sampleLib (sampleConfig "hello" true false)
                   (str "Hello World") <> Hangs.
Proof.
  assert (Hne : Keyword (sampleConfig "hello" true false) <> [])
    by discriminate.
  split; [exact Hne|].
  exact (proj2 (proj2 (proj2
    (@literal_highlight_terminates sampleLib
       (sampleConfig "hello" true false) (str "Hello World") Hne)))).
Defined.

(** ** Literal mode on concrete lines *)

(** The example of the specification: one span [0,5) for [hello] in
    [Hello World] when case is ignored. *)
Lemma literal_hello_world `{GoLib} :
  exists segs,
    processLine (sampleConfig "hello" true false) None (str "Hello World")
    = Hit 1 (Printed segs)
    /\ spans segs = [(0, 5)].
Proof. eexists. split; vm_compute; reflexivity. Qed.

(** Regex mode adds the number of matches of the line. *)
Lemma regex_mode_counts_matches `{GoLib} (cfg : Config) (re : RegexpT)
      (line : gostring) k pr :
  Regexp cfg = true ->
  processLine cfg (Some re) line = Hit k pr ->
  k = len (FindAllStringIndex re line) /\ 1 <= k.
Proof.
  unfold processLine. intros ->.
  destruct (FindStringIndex re line); [|discriminate].
  destruct (len (FindAllStringIndex re line) =? 0) eqn:E; [discriminate|].
  intros [= <- _]. apply Z.eqb_neq in E.
  pose proof (len_nonneg (FindAllStringIndex re line)). lia.
Qed.

(** C2: the amount added to [matchCount] for a matched line.  In literal
    mode the line [aa aa] with keyword [aa] has two highlighted spans,
    [0,2) and [3,5), and the locked block adds 1, not 2 (regex mode adds
    the number of matches, [regex_mode_counts_matches]). *)
Theorem literal_mode_adds_one_per_line `{GoLib} :
  exists segs,
    processLine (sampleConfig "aa" false false) None (str "aa aa")
    = Hit 1 (Printed segs)
    /\ spans segs = [(0, 2); (3, 5)]
    /\ occurrencesOf (str "aa aa") (str "aa") 0 0 = [(0, 2); (3, 5)].
Proof. eexists. repeat split; vm_compute; reflexivity. Qed.

(** C3: the highlighted spans of literal mode.  With [ignoreCase] false,
    keyword [hello] and line [Hello hello], the only case-sensitive
    occurrence is [6,11), and the spans highlighted are [0,5) and [6,11):
    the highlighting folds case whatever [cfg.IgnoreCase] says. *)
Theorem literal_highlight_ignores_case_flag `{GoLib} :
  exists segs,
    processLine (sampleConfig "hello" false false) None (str "Hello hello")
    = Hit 1 (Printed segs)
    /\ spans segs = [(0, 5); (6, 11)]
    /\ occurrencesOf (str "Hello hello") (str "hello") 0 0 = [(6, 11)].
Proof. eexists. repeat split; vm_compute; reflexivity. Qed.

Lemma strings_ToLower_strokeLine `{GoLib} :
  unicode_ToLower 570 = 11365 -> unicode_ToLower 120 = 120 ->
  strings_ToLower strokeLine
  = [mkbyte 226; mkbyte 177; mkbyte 165; mkbyte 120].
Proof.
  intros H1 H2. unfold strings_ToLower, strings_Map.
  change (forallb isASCII strokeLine) with false. cbv iota.
  change (runes strokeLine 0) with [570; 120].
  cbn [flat_map]. rewrite H1, H2. reflexivity.
Qed.

(** C9: the slices of the highlighting of literal mode.  When the lower
    case of U+023A is U+2C65 (one byte longer in UTF-8, as in Go's table)
    and [x] is its own lower case, the line U+023A [x] has 3 bytes, its
    lower-case copy has 4, the keyword [x] is found at offset 3 of the
    copy, and [line[3:4]] is out of range: the print panics after the
    unmatched prefix. *)
Theorem literal_highlight_slice_out_of_range `{GoLib} :
  unicode_ToLower 570 = 11365 -> unicode_ToLower 120 = 120 ->
  len strokeLine = 3
  /\ len (strings_ToLower strokeLine) = 4
  /\ strings_Index (strings_ToLower strokeLine) (str "x") = 3
  /\ slice strokeLine 3 4 = None
  /\ processLine (sampleConfig "x" false false) None strokeLine
     = Hit 1 (Panicked [Plain (str "  " ++ strokeLine)]).
Proof.
  intros H1 H2.
  pose proof (strings_ToLower_strokeLine H1 H2) as E.
  repeat split; try (rewrite E); try reflexivity.
  unfold processLine, printLiteral. cbn [Regexp IgnoreCase sampleConfig Keyword].
  rewrite E. vm_compute. reflexivity.
Qed.

Lemma literal_highlight_slice_out_of_range_witness :
  @unicode_ToLower sampleLib 570 = 11365
  /\ @unicode_ToLower sampleLib 120 = 120
  /\ @processLine sampleLib (sampleConfig "x" false false) None strokeLine
     = Hit 1 (Panicked [Plain (str "  " ++ strokeLine)]).
Proof.
  assert (H1 : @unicode_ToLower sampleLib 570 = 11365) by reflexivity.
  assert (H2 : @unicode_ToLower sampleLib 120 = 120) by reflexivity.
  split; [exact H1|]. split; [exact H2|].
  apply (@literal_highlight_slice_out_of_range sampleLib H1 H2).
Defined.

(** ** The traversal *)

Lemma filter_none {A : Type} (f : A -> bool) (l : list A) :
  (forall x, In x l -> f x = false) -> filter f l = [].
Proof.
  induction l as [|x l IH]; intros Hall; [reflexivity|].
  cbn [filter]. rewrite (Hall x (or_introl eq_refl)).
  apply IH. intros y Hy. apply Hall. right. exact Hy.
Qed.

Section Traversal.
Context `{GoLib}.
Variable cfg : Config.

(** Every occurrence below a node lists the directories leading to the
    node first. *)
Lemma occurrences_dirs node :
  forall path dirs o,
    In o (occurrences path node dirs) ->
    exists rest, occ_dirs o = dirs ++ rest.
Proof.
  induction node as [r| |entries IH] using Node_ind; intros path dirs o Ho.
  - destruct Ho as [<-|[]]. exists []. symmetry. apply app_nil_r.
  - destruct Ho.
  - cbn [occurrences] in Ho.
    induction IH as [|[name [child|]] rest Hc _ IHrest]; cbn in Ho.
    + destruct Ho.
    + apply in_app_or in Ho as [Ho|Ho]; [|exact (IHrest Ho)].
      apply Hc in Ho as [more ->]. exists ([path] ++ more).
      symmetry. apply app_assoc.
    + exact (IHrest Ho).
Qed.

(** Nothing below an excluded directory is a candidate. *)
Lemma candidate_below_excluded node path dirs :
  excluded cfg path = true ->
  filter (candidate cfg) (occurrences path node dirs) = [] \/
  IsDir (infoOf node) = false.
Proof.
  intros Hex. destruct node as [r| |entries]; [right; reflexivity|left..].
  - reflexivity.
  - apply filter_none. intros o Ho.
    assert (Hd : exists rest, occ_dirs o = (dirs ++ [path]) ++ rest).
    { cbn [occurrences] in Ho.
      induction entries as [|[name [child|]] rest IH]; cbn in Ho.
      - destruct Ho.
      - apply in_app_or in Ho as [Ho|Ho]; [|exact (IH Ho)].
        exact (occurrences_dirs _ _ _ _ Ho).
      - exact (IH Ho). }
    destruct Hd as [rest Hd].
    unfold candidate, outsideExcluded. rewrite Hd, !forallb_app.
    cbn [forallb]. rewrite Hex. cbn. rewrite andb_false_r. reflexivity.
Qed.

(** The walk of [Search] below a node all of whose enclosing directories
    were entered: the paths sent are those of the candidates, in listing
    order, and the function's answer is nil, or [SkipDir] for a
    directory. *)
Lemma walk_walkFn node :
  forall path dirs q,
    forallb (fun d => negb (excluded cfg d)) dirs = true ->
    exists e,
      walk (walkFn cfg) path node q
      = (e, q ++ map occ_path
               (filter (candidate cfg) (occurrences path node dirs)))
      /\ (e = None \/ (e = Some SkipDir /\ IsDir (infoOf node) = true
                       /\ excluded cfg path = true)).
Proof.
  induction node as [r| |entries IH] using Node_ind;
    intros path dirs q Hdirs.
  - exists None. split; [|left; reflexivity].
    cbn [walk walkFn infoOf IsDir IsRegular occurrences filter].
    unfold candidate, outsideExcluded. cbn [occ_dirs occ_path occ_regular].
    rewrite Hdirs.
    destruct (extAllowed cfg path), r; cbn; rewrite ?app_nil_r; reflexivity.
  - exists None. split; [|left; reflexivity].
    cbn. rewrite app_nil_r. reflexivity.
  - cbn [walk walkFn infoOf IsDir].
    destruct (excluded cfg path) eqn:Hex.
    + exists (Some SkipDir). split; [|right; auto].
      destruct (candidate_below_excluded (NDir entries) path dirs Hex)
        as [->|E]; [|discriminate].
      cbn. rewrite app_nil_r. reflexivity.
    + exists None. split; [|left; reflexivity].
      cbn [occurrences].
      assert (Hdirs' : forallb (fun d => negb (excluded cfg d))
                               (dirs ++ [path]) = true).
      { rewrite forallb_app, Hdirs. cbn. rewrite Hex. reflexivity. }
      revert q.
      induction IH as [|[name [child|]] rest Hc _ IHrest]; intros q.
      * cbn. rewrite app_nil_r. reflexivity.
      * destruct (Hc (filepath_Join path name) (dirs ++ [path]) q Hdirs')
          as (e & Hw & He).
        rewrite Hw.
        rewrite filter_app, map_app, app_assoc.
        destruct He as [->|(-> & Hd & _)].
        -- apply IHrest.
        -- rewrite Hd. cbn [negb orb isSkipDir]. apply IHrest.
      * cbn [walkFn]. apply IHrest.
Qed.
End Traversal.

Lemma gostring_eqb_eq (a b : gostring) : gostring_eqb a b = true <-> a = b.
Proof.
  revert b. induction a as [|c a IH]; intros [|d b]; cbn;
    try (split; [discriminate|congruence]); [tauto|].
  rewrite andb_true_iff, Ascii.eqb_eq, IH. split.
  - intros [-> ->]. reflexivity.
  - intros [= -> ->]. tauto.
Qed.

Section SearchWalk.
Context `{GoLib}.
Variable cfg : Config.

(** The directory test is equality of the base name with an entry of
    [cfg.ExcludeDirs]. *)
Lemma excluded_iff path :
  excluded cfg path = true <-> In (filepath_Base path) (ExcludeDirs cfg).
Proof.
  unfold excluded. rewrite existsb_exists. split.
  - intros (excl & Hin & Heq). apply gostring_eqb_eq in Heq.
    rewrite Heq. exact Hin.
  - intros Hin. exists (filepath_Base path). split; [exact Hin|].
    apply gostring_eqb_eq. reflexivity.
Qed.

(** The extension test, spelled out. *)
Lemma extAllowed_iff path :
  extAllowed cfg path = true <->
  (Exts cfg = [] \/
   exists e, In e (Exts cfg) /\
             strings_ToLower (filepath_Ext path)
             = str "." ++ strings_ToLower e).
Proof.
  unfold extAllowed.
  destruct (Exts cfg) as [|e0 es] eqn:E.
  - cbn. tauto.
  - replace (0 <? len (e0 :: es)) with true
      by (symmetry; apply Z.ltb_lt; unfold len; cbn [List.length]; lia).
    rewrite existsb_exists. split.
    + intros (e & Hin & Heq). right. exists e. split; [exact Hin|].
      apply gostring_eqb_eq. exact Heq.
    + intros [Hnil|(e & Hin & Heq)]; [discriminate|].
      exists e. split; [exact Hin|]. apply gostring_eqb_eq. exact Heq.
Qed.

(** [filepath.Walk] with the function of [Search] never fails, and sends
    exactly the candidates. *)
Lemma walkAll_candidates fs : walkAll cfg fs = (None, candidates cfg fs).
Proof.
  unfold walkAll, filepath_Walk, candidates, rootOccurrences.
  destruct (fs_root fs) as [node|]; [|reflexivity].
  destruct (walk_walkFn cfg node (StartDir cfg) [] [] eq_refl)
    as (e & -> & [->|(-> & _)]); reflexivity.
Qed.
End SearchWalk.

Lemma normalize_fields `{GoLib} (cfg : Config) :
  StartDir (normalize cfg) = StartDir cfg
  /\ Keyword (normalize cfg) = Keyword cfg
  /\ IgnoreCase (normalize cfg) = IgnoreCase cfg
  /\ Exts (normalize cfg) = Exts cfg
  /\ ExcludeDirs (normalize cfg) = ExcludeDirs cfg
  /\ Regexp (normalize cfg) = Regexp cfg
  /\ 1 <= Workers (normalize cfg).
Proof.
  unfold normalize. destruct (Workers cfg <=? 0) eqn:E; cbn; repeat split.
  - lia.
  - apply Z.leb_gt in E. lia.
Qed.

(** The error [Search] returns is always nil. *)
Lemma Search_error_nil `{GoLib} (cfg : Config) (fs : FileSystem) m f e :
  Search cfg fs = Returns (m, f, e) -> e = None.
Proof.
  unfold Search. rewrite walkAll_candidates.
  destruct (drain _ _ _ _); [|discriminate..].
  cbn. congruence.
Qed.

(** C1: the error [Search] returns when the root cannot be accessed.
    With a root whose [Lstat] fails, [filepath.Walk] hands the error to the
    walk function, which answers nil for every error, so [Walk] returns nil:
    [Search] returns zero counts and a nil error, whatever the
    configuration and whatever the files. *)
Theorem root_error_is_swallowed `{GoLib} (cfg : Config)
        (open : gostring -> option (list gostring)) :
  filepath_Walk (StartDir cfg) None (walkFn cfg) [] = (None, [])
  /\ Search cfg {| fs_root := None; fs_open := open |}
     = Returns (0, 0, None).
Proof.
  split; [reflexivity|].
  unfold Search. rewrite walkAll_candidates. reflexivity.
Qed.

(** C6: a directory whose base name equals an entry of
    [cfg.ExcludeDirs] is pruned.  The walk function answers [SkipDir] for a
    directory exactly when its base name is in the list; the walk of such a
    directory sends nothing, whatever the directory holds; and over a whole
    search the paths sent are those of the candidates, none of which has a
    directory with an excluded base name among the directories that
    contain it, at any depth. *)
Theorem excluded_directory_is_pruned `{GoLib} (cfg : Config) (fs : FileSystem) :
  (forall path q,
      walkFn cfg path (Found {| IsDir := true; IsRegular := false |}) q
      = (if excluded cfg path then Some SkipDir else None, q))
  /\ (forall path,
         excluded cfg path = true <->
         In (filepath_Base path) (ExcludeDirs cfg))
  /\ (forall path entries q,
         In (filepath_Base path) (ExcludeDirs cfg) ->
         walk (walkFn cfg) path (NDir entries) q = (Some SkipDir, q))
  /\ snd (walkAll cfg fs)
     = map occ_path (filter (candidate cfg) (rootOccurrences cfg fs))
  /\ (forall o,
         candidate cfg o = true ->
         forall d, In d (occ_dirs o) ->
                   ~ In (filepath_Base d) (ExcludeDirs cfg)).
Proof.
  split; [|split; [|split; [|split]]].
  - intros path q. cbn. destruct (excluded cfg path); reflexivity.
  - apply excluded_iff.
  - intros path entries q Hin. apply excluded_iff in Hin.
    cbn [walk walkFn infoOf IsDir]. rewrite Hin. reflexivity.
  - rewrite walkAll_candidates. reflexivity.
  - intros o Hc d Hd Hin. apply excluded_iff in Hin.
    unfold candidate, outsideExcluded in Hc.
    apply andb_true_iff in Hc as [Hc _]. apply andb_true_iff in Hc as [Hc _].
    rewrite forallb_forall in Hc. specialize (Hc d Hd).
    rewrite Hin in Hc. discriminate.
Qed.

Lemma excluded_directory_is_pruned_witness :
  In (filepath_Base (str "root/vendor"))
     (ExcludeDirs (sampleConfig "hello" true false))
  /\ @walk sampleLib (@walkFn sampleLib (sampleConfig "hello" true false))
           (str "root/vendor")
           (NDir [(str "x.go", Some (NFile true))]) []
     = (Some SkipDir, []).
Proof.
  assert (Hin : In (filepath_Base (str "root/vendor"))
                   (ExcludeDirs (sampleConfig "hello" true false)))
    by (cbn; tauto).
  split; [exact Hin|].
  exact (proj1 (proj2 (proj2
    (@excluded_directory_is_pruned sampleLib
       (sampleConfig "hello" true false) sampleFS)))
    (str "root/vendor") [(str "x.go", Some (NFile true))] [] Hin).
Defined.

(** C7: the extension filter.  For an entry that is not a directory the
    walk function sends the path exactly when the file is regular and the
    extension test passes; the test passes when [cfg.Exts] is empty, and
    otherwise exactly when the lower-cased extension of the path, dot
    included, equals a dot followed by the lower-cased form of some entry of
    the list.  With the list [go], [md], the file [a.GO] is sent and the
    file [a.txt] is not. *)
Theorem extension_filter `{GoLib} (cfg : Config) :
  (forall path regular q,
      walkFn cfg path (Found {| IsDir := false; IsRegular := regular |}) q
      = (None, if regular && extAllowed cfg path then q ++ [path] else q))
  /\ (forall path,
         extAllowed cfg path = true <->
         (Exts cfg = [] \/
          exists e, In e (Exts cfg) /\
                    strings_ToLower (filepath_Ext path)
                    = str "." ++ strings_ToLower e))
  /\ (forall q,
         walkFn (withExts cfg [str "go"; str "md"]) (str "a.GO")
                (Found {| IsDir := false; IsRegular := true |}) q
         = (None, q ++ [str "a.GO"]))
  /\ (forall q,
         walkFn (withExts cfg [str "go"; str "md"]) (str "a.txt")
                (Found {| IsDir := false; IsRegular := true |}) q
         = (None, q)).
Proof.
  split; [|split; [|split]].
  - intros path regular q. cbn [walkFn IsDir IsRegular].
    destruct (extAllowed cfg path), regular; reflexivity.
  - apply extAllowed_iff.
  - intros q. reflexivity.
  - intros q. reflexivity.
Qed.

(** Over a whole search: the regular files outside excluded directories
    that are sent are those passing the extension test. *)
Lemma extension_filter_search `{GoLib} (cfg : Config) (fs : FileSystem) o :
  In o (rootOccurrences cfg fs) ->
  occ_regular o = true -> outsideExcluded cfg o = true ->
  (In o (filter (candidate cfg) (rootOccurrences cfg fs))
   <-> extAllowed cfg (occ_path o) = true).
Proof.
  intros Hin Hr Ho. rewrite filter_In. unfold candidate.
  rewrite Hr, Ho. cbn. rewrite andb_true_r. tauto.
Qed.

(** The entries of [cfg.Exts] are written without the dot: the test puts
    one in front of each, so the entry [.go] does not admit [a.go]. *)
Lemma extension_entry_with_dot `{GoLib} (cfg : Config) :
  extAllowed (withExts cfg [str ".go"]) (str "a.go") = false
  /\ extAllowed (withExts cfg [str "go"]) (str "a.go") = true.
Proof. split; reflexivity. Qed.

(** The sample tree with the list [go], [md]: [a.GO] and [src/m.md] are
    sent; [a.txt], the files below [vendor], the link, the failing entry
    and the unreadable directory are not. *)
Lemma extension_filter_sample :
  @walkAll sampleLib
           (withExts (sampleConfig "hello" true false) [str "go"; str "md"])
           sampleFS
  = (None, [str "root/a.GO"; str "root/src/m.md"]).
Proof. reflexivity. Qed.

(** ** Invalid patterns *)

Section InvalidPattern.
Context `{GoLib}.
Variables (cfg : Config) (fs : FileSystem).

(** The pattern [processFile] compiles. *)
Let pattern : gostring :=
  if IgnoreCase cfg then str "(?i)" ++ Keyword cfg else Keyword cfg.

Hypothesis Huse : Regexp cfg = true.
Hypothesis Hbad : regexp_Compile pattern = None.

Lemma openFile_invalid path : openFile (normalize cfg) fs path = None.
Proof.
  destruct (normalize_fields cfg) as (_ & Hk & Hi & _ & _ & Hr & _).
  unfold openFile. rewrite Hk, Hi, Hr, Huse.
  destruct (fs_open fs path); [|reflexivity].
  cbv beta iota zeta.
  destruct (regexp_Compile _) eqn:E; [|reflexivity].
  first [discriminate Hbad | congruence].
Qed.

Lemma processFile_invalid path t :
  processFile path (normalize cfg) fs t = Returns t.
Proof. unfold processFile. rewrite openFile_invalid. reflexivity. Qed.

Lemma drain_invalid queue t : drain (normalize cfg) fs queue t = Returns t.
Proof.
  induction queue as [|path rest IH]; [reflexivity|].
  cbn [drain]. rewrite processFile_invalid. exact IH.
Qed.
End InvalidPattern.

(** ** The totals *)

Lemma locked_spec k fileMatched t :
  locked k fileMatched t
  = ({| matchCount := matchCount t + k;
        fileCount := fileCount t + (if fileMatched then 0 else 1) |}, true).
Proof.
  unfold locked. destruct fileMatched; cbn; rewrite ?Z.add_0_r; reflexivity.
Qed.

Section Totals.
Context `{GoLib}.
Variables (cfg : Config) (fs : FileSystem).

(** The amount a locked block adds to [matchCount] is at least 1. *)
Lemma processLine_hit_positive re line k pr :
  processLine cfg re line = Hit k pr -> 1 <= k.
Proof.
  unfold processLine. destruct (Regexp cfg).
  - destruct re as [re|]; [|discriminate].
    destruct (FindStringIndex re line); [|discriminate].
    destruct (len (FindAllStringIndex re line) =? 0) eqn:E; [discriminate|].
    intros [= <- _]. apply Z.eqb_neq in E.
    pose proof (len_nonneg (FindAllStringIndex re line)). lia.
  - destruct (negb _); [discriminate|]. intros [= <- _]. lia.
Qed.

(** One step of a worker adds at most 1 to [fileCount], and then at
    least 1 to [matchCount]. *)
Lemma step_counts i p :
  let p' := step cfg fs i p in
  0 <= fileCount (totals p') - fileCount (totals p) <= 1
  /\ fileCount (totals p') - fileCount (totals p)
     <= matchCount (totals p') - matchCount (totals p).
Proof.
  unfold step. destruct (crashed p); [cbn; lia|].
  destruct (nth_error (workers p) i) as [[|re [|line rest] fm|re l fm]|];
    try (cbn; lia).
  - destruct (chan p); cbn; lia.
  - destruct (processLine cfg re line) as [|k pr] eqn:E; [cbn; lia|].
    apply processLine_hit_positive in E. rewrite locked_spec.
    destruct pr, fm; cbn; lia.
Qed.

Lemma run_snoc sched i p :
  run cfg fs (sched ++ [i]) p = step cfg fs i (run cfg fs sched p).
Proof. unfold run. rewrite fold_left_app. reflexivity. Qed.

(** At every point of every schedule [fileCount] is at most
    [matchCount], when it was so at the start. *)
Lemma run_invariant sched :
  forall p,
    fileCount (totals p) <= matchCount (totals p) ->
    fileCount (totals (run cfg fs sched p))
    <= matchCount (totals (run cfg fs sched p)).
Proof.
  induction sched as [|i sched IH]; intros p Hp; [exact Hp|].
  cbn [run fold_left]. apply IH.
  pose proof (step_counts i p) as Hs. cbv zeta in Hs. lia.
Qed.

Lemma scanLines_invariant re lines :
  forall fm t t',
    scanLines cfg re lines fm t = Returns t' ->
    fileCount t <= matchCount t -> fileCount t' <= matchCount t'.
Proof.
  induction lines as [|line rest IH]; intros fm t t' Hs Ht.
  - injection Hs as <-. exact Ht.
  - cbn [scanLines] in Hs.
    destruct (processLine cfg re line) as [|k pr] eqn:E;
      [exact (IH _ _ _ Hs Ht)|].
    apply processLine_hit_positive in E. rewrite locked_spec in Hs.
    destruct pr; try discriminate.
    apply IH in Hs; [exact Hs|]. destruct fm; cbn; lia.
Qed.

(** A scan that returns has added 0 or 1 to [fileCount], 0 when the file
    had matched before, and at least as much to [matchCount]. *)
Lemma scanLines_counts re lines :
  forall fm t t',
    scanLines cfg re lines fm t = Returns t' ->
    0 <= fileCount t' - fileCount t <= (if fm then 0 else 1)
    /\ fileCount t' - fileCount t <= matchCount t' - matchCount t.
Proof.
  induction lines as [|line rest IH]; intros fm t t' Hs.
  - injection Hs as <-. destruct fm; lia.
  - cbn [scanLines] in Hs.
    destruct (processLine cfg re line) as [|k pr] eqn:E;
      [exact (IH _ _ _ Hs)|].
    apply processLine_hit_positive in E. rewrite locked_spec in Hs.
    destruct pr; try discriminate.
    apply IH in Hs. cbn [matchCount fileCount] in Hs.
    destruct fm; lia.
Qed.

Lemma drain_invariant queue :
  forall t t',
    drain cfg fs queue t = Returns t' ->
    fileCount t <= matchCount t -> fileCount t' <= matchCount t'.
Proof.
  induction queue as [|path rest IH]; intros t t' Hd Ht.
  - injection Hd as <-. exact Ht.
  - cbn [drain] in Hd.
    destruct (processFile path cfg fs t) as [t1| |] eqn:E;
      try discriminate.
    apply (IH _ _ Hd). unfold processFile in E.
    destruct (openFile cfg fs path) as [[re lines]|].
    + exact (scanLines_invariant _ _ _ _ _ E Ht).
    + injection E as <-. exact Ht.
Qed.
End Totals.

(** C5: [matchCount >= fileCount] at every point of a search and in its
    result.  The locked block of a matching line adds 1 to [fileCount]
    only when the file has not matched before, sets [fileMatched], and adds
    at least 1 to [matchCount]; a file that is scanned to its end adds 0 or
    1 to [fileCount] and at least as much to [matchCount]; so does every
    step of a worker; hence the inequality holds in the pool after any
    schedule of steps, for any number of workers, and in what [Search]
    returns. *)
Theorem matchCount_at_least_fileCount `{GoLib} (cfg : Config)
        (fs : FileSystem) :
  (forall re line k pr fileMatched t,
      processLine cfg re line = Hit k pr ->
      let t' := fst (locked k fileMatched t) in
      fileCount t' = fileCount t + (if fileMatched then 0 else 1)
      /\ 1 <= matchCount t' - matchCount t
      /\ snd (locked k fileMatched t) = true)
  /\ (forall path t t',
         processFile path cfg fs t = Returns t' ->
         0 <= fileCount t' - fileCount t <= 1
         /\ fileCount t' - fileCount t <= matchCount t' - matchCount t)
  /\ (forall i p,
         let p' := step (normalize cfg) fs i p in
         0 <= fileCount (totals p') - fileCount (totals p) <= 1
         /\ fileCount (totals p') - fileCount (totals p)
            <= matchCount (totals p') - matchCount (totals p))
  /\ (forall sched,
         fileCount (totals (searchRun cfg fs sched))
         <= matchCount (totals (searchRun cfg fs sched)))
  /\ (forall m f e, Search cfg fs = Returns (m, f, e) -> f <= m).
Proof.
  split; [|split; [|split; [|split]]].
  - intros re line k pr fm t Hk. apply processLine_hit_positive in Hk.
    rewrite locked_spec. destruct fm; cbn; repeat split; lia.
  - intros path t t'. unfold processFile.
    destruct (openFile cfg fs path) as [[re lines]|].
    + intros Hs. apply scanLines_counts in Hs. cbv iota in Hs. lia.
    + intros [= <-]. lia.
  - intros i p. apply step_counts.
  - intros sched. unfold searchRun. apply run_invariant. cbn. lia.
  - intros m f e. unfold Search.
    destruct (walkAll (normalize cfg) fs) as [err q].
    destruct (drain _ _ _ _) as [t| |] eqn:E; try discriminate.
    apply drain_invariant in E; [|cbn; lia].
    unfold result. destruct err; intros [= <- <- _]; lia.
Qed.

Lemma matchCount_at_least_fileCount_witness :
  @processLine sampleLib (sampleConfig "hello" true false) None
               (str "Hello World")
  = Hit 1 (@printLiteral sampleLib (sampleConfig "hello" true false)
                         (str "Hello World"))
  /\ 1 <= matchCount
            (fst (locked 1 false {| matchCount := 0; fileCount := 0 |})) - 0.
Proof.
  assert (Hhit : @processLine sampleLib (sampleConfig "hello" true false)
                              None (str "Hello World")
                 = Hit 1 (@printLiteral sampleLib
                            (sampleConfig "hello" true false)
                            (str "Hello World")))
    by reflexivity.
  split; [exact Hhit|].
  exact (proj1 (proj2
    (proj1 (@matchCount_at_least_fileCount sampleLib
              (sampleConfig "hello" true false) sampleFS)
           None (str "Hello World") 1 _ false
           {| matchCount := 0; fileCount := 0 |} Hhit))).
Defined.

(** ** Schedules *)

Section Schedules.
Context `{GoLib}.
Variables (cfg : Config) (fs : FileSystem).

Lemma sum_setWorker (f : Worker -> Z * Z) ws :
  forall i w w',
    nth_error ws i = Some w ->
    addPair (f w) (sumPairs (map f (setWorker i w' ws)))
    = addPair (f w') (sumPairs (map f ws)).
Proof.
  induction ws as [|w0 ws IH]; intros [|i] w w' Hn; try discriminate.
  - injection Hn as ->. cbn [setWorker map sumPairs fold_right].
    unfold addPair. cbn [fst snd]. f_equal; lia.
  - cbn in Hn. specialize (IH i w w' Hn).
    cbn [setWorker map sumPairs fold_right]. fold (sumPairs (map f ws)).
    fold (sumPairs (map f (setWorker i w' ws))).
    apply (f_equal fst) in IH as IH1. apply (f_equal snd) in IH as IH2.
    unfold addPair in *. cbn [fst snd] in *. f_equal; lia.
Qed.

Lemma owedLines_cons re line rest fm :
  owedLines cfg re (line :: rest) fm
  = match processLine cfg re line with
    | NoMatch => owedLines cfg re rest fm
    | Hit k _ => addPair (k, if fm then 0 else 1)
                         (owedLines cfg re rest true)
    end.
Proof.
  cbn [owedLines]. destruct (processLine cfg re line); [reflexivity|].
  destruct (owedLines cfg re rest true). reflexivity.
Qed.

(** A step moves what it counts from the owed part to the totals: the
    projection of the pool does not change. *)
Lemma step_projected i p :
  projected cfg fs (step cfg fs i p) = projected cfg fs p.
Proof.
  unfold step. destruct (crashed p); [reflexivity|].
  destruct (nth_error (workers p) i) as [w|] eqn:Hn; [|reflexivity].
  assert (Hset : forall w',
             addPair (owedWorker cfg w)
                     (sumPairs (map (owedWorker cfg)
                                    (setWorker i w' (workers p))))
             = addPair (owedWorker cfg w')
                       (sumPairs (map (owedWorker cfg) (workers p))))
    by (intros w'; apply sum_setWorker; exact Hn).
  assert (Hgo : forall w' c t,
             addPair (matchCount t, fileCount t)
               (addPair (owedWorker cfg w') (sumPairs (map (owedFile cfg fs) c)))
             = addPair (matchCount (totals p), fileCount (totals p))
                 (addPair (owedWorker cfg w)
                    (sumPairs (map (owedFile cfg fs) (chan p)))) ->
             projected cfg fs
               {| chan := c; workers := setWorker i w' (workers p);
                  totals := t; crashed := false |}
             = projected cfg fs p
             /\ forall b,
                 projected cfg fs
                   {| chan := c; workers := setWorker i w' (workers p);
                      totals := t; crashed := b |}
                 = projected cfg fs p).
  { intros w' c t E. specialize (Hset w').
    assert (forall b, projected cfg fs
              {| chan := c; workers := setWorker i w' (workers p);
                 totals := t; crashed := b |} = projected cfg fs p);
      [|split; auto].
    intros b. unfold projected. cbn [chan workers totals].
    apply (f_equal fst) in E as E1. apply (f_equal snd) in E as E2.
    apply (f_equal fst) in Hset as S1. apply (f_equal snd) in Hset as S2.
    unfold addPair in *. cbn [fst snd] in *. f_equal; lia. }
  destruct w as [|re [|line rest] fm|re l fm]; [| | |reflexivity].
  - destruct (chan p) as [|path rest] eqn:Hc; [reflexivity|].
    apply Hgo. cbn [map sumPairs fold_right owedWorker].
    fold (sumPairs (map (owedFile cfg fs) rest)).
    unfold owedFile at 2.
    destruct (openFile cfg fs path) as [[re lines]|];
      unfold addPair; cbn [fst snd owedWorker]; f_equal; lia.
  - apply Hgo. reflexivity.
  - cbn [owedWorker] in Hgo. rewrite owedLines_cons in Hgo.
    destruct (processLine cfg re line) as [|k pr].
    + apply Hgo. reflexivity.
    + rewrite locked_spec.
      destruct pr; apply Hgo; cbn [owedWorker matchCount fileCount];
        unfold addPair; cbn [fst snd]; f_equal; lia.
Qed.

Lemma run_projected sched :
  forall p, projected cfg fs (run cfg fs sched p) = projected cfg fs p.
Proof.
  induction sched as [|i sched IH]; intros p; [reflexivity|].
  cbn [run fold_left]. fold (run cfg fs sched (step cfg fs i p)).
  rewrite IH. apply step_projected.
Qed.

(** When the pool has finished nothing is owed any more. *)
Lemma finished_projected p :
  finished p = true ->
  projected cfg fs p = (matchCount (totals p), fileCount (totals p)).
Proof.
  unfold finished. rewrite !andb_true_iff. intros [[_ Hc] Hw].
  destruct (chan p) eqn:E; [|discriminate].
  unfold projected. rewrite E.
  assert (Hz : sumPairs (map (owedWorker cfg) (workers p)) = (0, 0)).
  { induction (workers p) as [|w ws IH]; [reflexivity|].
    cbn in Hw. apply andb_true_iff in Hw as [Hi Hw].
    destruct w; try discriminate.
    cbn [map sumPairs fold_right]. fold (sumPairs (map (owedWorker cfg) ws)).
    rewrite (IH Hw). reflexivity. }
  rewrite Hz. unfold addPair. cbn. f_equal; lia.
Qed.

Lemma idle_owes_nothing n :
  sumPairs (map (owedWorker cfg) (repeat Idle n)) = (0, 0).
Proof.
  induction n as [|n IH]; [reflexivity|].
  cbn [repeat map sumPairs fold_right].
  fold (sumPairs (map (owedWorker cfg) (repeat Idle n))).
  rewrite IH. reflexivity.
Qed.
End Schedules.

Section SingleWorker.
Context `{GoLib}.
Variables (cfg : Config) (fs : FileSystem).

(** A scan that returns has added what the lines owed. *)
Lemma scanLines_totals re lines :
  forall fm t t',
    scanLines cfg re lines fm t = Returns t' ->
    pairOf t' = addPair (pairOf t) (owedLines cfg re lines fm).
Proof.
  induction lines as [|line rest IH]; intros fm t t' Hs.
  - injection Hs as <-. unfold addPair, pairOf. cbn. f_equal; lia.
  - rewrite owedLines_cons. cbn [scanLines] in Hs.
    destruct (processLine cfg re line) as [|k pr]; [exact (IH _ _ _ Hs)|].
    rewrite locked_spec in Hs. destruct pr; try discriminate.
    apply IH in Hs. rewrite Hs.
    apply (f_equal fst) in Hs as H1. apply (f_equal snd) in Hs as H2.
    unfold addPair, pairOf in *. cbn [fst snd matchCount fileCount] in *.
    f_equal; lia.
Qed.

Lemma drain_totals queue :
  forall t t',
    drain cfg fs queue t = Returns t' ->
    pairOf t' = addPair (pairOf t) (sumPairs (map (owedFile cfg fs) queue)).
Proof.
  induction queue as [|path rest IH]; intros t t' Hd.
  - injection Hd as <-. unfold addPair, pairOf. cbn. f_equal; lia.
  - cbn [drain] in Hd.
    destruct (processFile path cfg fs t) as [t1| |] eqn:E;
      try discriminate.
    apply IH in Hd. rewrite Hd. cbn [map sumPairs fold_right].
    fold (sumPairs (map (owedFile cfg fs) rest)).
    assert (E1 : pairOf t1 = addPair (pairOf t) (owedFile cfg fs path)).
    { unfold processFile in E. unfold owedFile.
      destruct (openFile cfg fs path) as [[re lines]|].
      - exact (scanLines_totals _ _ _ _ _ E).
      - injection E as <-. unfold addPair, pairOf. cbn. f_equal; lia. }
    rewrite E1. unfold addPair. cbn [fst snd]. f_equal; lia.
Qed.

Lemma run_app s1 s2 p :
  run cfg fs (s1 ++ s2) p = run cfg fs s2 (run cfg fs s1 p).
Proof. unfold run. apply fold_left_app. Qed.

Lemma run_cons i sched p :
  run cfg fs (i :: sched) p = run cfg fs sched (step cfg fs i p).
Proof. reflexivity. Qed.

(** Worker 0 alone scans a file whose prints all complete. *)
Lemma scan_schedule re lines :
  forall fm t t' c ws,
    scanLines cfg re lines fm t = Returns t' ->
    run cfg fs (repeat 0%nat (S (List.length lines)))
        {| chan := c; workers := Scanning re lines fm :: ws;
           totals := t; crashed := false |}
    = {| chan := c; workers := Idle :: ws; totals := t';
         crashed := false |}.
Proof.
  induction lines as [|line rest IH]; intros fm t t' c ws Hs.
  - injection Hs as <-. reflexivity.
  - cbn [scanLines] in Hs.
    change (repeat 0%nat (S (List.length (line :: rest))))
      with (0%nat :: repeat 0%nat (S (List.length rest))).
    rewrite run_cons.
    unfold step. cbn [crashed workers nth_error chan totals setWorker].
    destruct (processLine cfg re line) as [|k pr].
    + exact (IH _ _ _ _ _ Hs).
    + destruct (locked k fm t) as [t1 fm1].
      destruct pr; try discriminate.
      exact (IH _ _ _ _ _ Hs).
Qed.

(** Worker 0 alone drains a channel none of whose files stops it. *)
Lemma drain_schedule queue :
  forall t t' ws,
    drain cfg fs queue t = Returns t' ->
    exists sched,
      run cfg fs sched
          {| chan := queue; workers := Idle :: ws; totals := t;
             crashed := false |}
      = {| chan := []; workers := Idle :: ws; totals := t';
           crashed := false |}.
Proof.
  induction queue as [|path rest IH]; intros t t' ws Hd.
  - injection Hd as <-. exists []. reflexivity.
  - cbn [drain] in Hd.
    destruct (processFile path cfg fs t) as [t1| |] eqn:E;
      try discriminate.
    destruct (IH _ _ ws Hd) as [sched Hsched].
    unfold processFile in E.
    destruct (openFile cfg fs path) as [[re lines]|] eqn:Ho.
    + exists ((0%nat :: repeat 0%nat (S (List.length lines))) ++ sched).
      rewrite run_app, run_cons.
      unfold step.
      cbn [crashed workers nth_error chan totals setWorker].
      rewrite Ho. rewrite (scan_schedule _ _ _ _ _ _ _ E). exact Hsched.
    + injection E as <-. exists (0%nat :: sched).
      rewrite run_cons.
      unfold step.
      cbn [crashed workers nth_error chan totals setWorker].
      rewrite Ho. exact Hsched.
Qed.
End SingleWorker.

(** The worker count is read by no step of the engine. *)
Section WorkerCount.
Context `{GoLib}.
Variables (cfg : Config) (fs : FileSystem) (n : Z).

Lemma normalize_withWorkers :
  1 <= n -> normalize (withWorkers cfg n) = withWorkers cfg n.
Proof.
  intros Hn. unfold normalize. cbn [Workers withWorkers].
  destruct (n <=? 0) eqn:E; [apply Z.leb_le in E; lia|reflexivity].
Qed.

Lemma owedLines_withWorkers re lines :
  forall fm,
    owedLines (withWorkers cfg n) re lines fm = owedLines cfg re lines fm.
Proof.
  induction lines as [|line rest IH]; intros fm; [reflexivity|].
  rewrite !owedLines_cons.
  change (processLine (withWorkers cfg n) re line)
    with (processLine cfg re line).
  destruct (processLine cfg re line); rewrite IH; reflexivity.
Qed.

Lemma owedFile_withWorkers path :
  owedFile (withWorkers cfg n) fs path = owedFile cfg fs path.
Proof.
  unfold owedFile.
  change (openFile (withWorkers cfg n) fs path) with (openFile cfg fs path).
  destruct (openFile cfg fs path) as [[re lines]|]; [|reflexivity].
  apply owedLines_withWorkers.
Qed.

Lemma scanLines_withWorkers re lines :
  forall fm t,
    scanLines (withWorkers cfg n) re lines fm t
    = scanLines cfg re lines fm t.
Proof.
  induction lines as [|line rest IH]; intros fm t; [reflexivity|].
  cbn [scanLines].
  change (processLine (withWorkers cfg n) re line)
    with (processLine cfg re line).
  destruct (processLine cfg re line) as [|k pr]; [apply IH|].
  destruct (locked k fm t). destruct pr; try reflexivity. apply IH.
Qed.

Lemma drain_withWorkers queue :
  forall t, drain (withWorkers cfg n) fs queue t = drain cfg fs queue t.
Proof.
  induction queue as [|path rest IH]; intros t; [reflexivity|].
  cbn [drain].
  assert (E : processFile path (withWorkers cfg n) fs t
              = processFile path cfg fs t).
  { unfold processFile.
    change (openFile (withWorkers cfg n) fs path)
      with (openFile cfg fs path).
    destruct (openFile cfg fs path) as [[re lines]|]; [|reflexivity].
    apply scanLines_withWorkers. }
  rewrite E. destruct (processFile path cfg fs t); try reflexivity.
  apply IH.
Qed.

Lemma candidates_withWorkers :
  candidates (withWorkers cfg n) fs = candidates cfg fs.
Proof. reflexivity. Qed.

(** Whatever the schedule, a finished search with [n] workers has
    counted what the candidate files owe. *)
Lemma finished_totals sched :
  1 <= n ->
  finished (searchRun (withWorkers cfg n) fs sched) = true ->
  pairOf (totals (searchRun (withWorkers cfg n) fs sched))
  = sumPairs (map (owedFile cfg fs) (candidates cfg fs)).
Proof.
  intros Hn Hfin.
  pose proof (finished_projected (withWorkers cfg n) fs _ Hfin) as Hp.
  unfold pairOf. rewrite <- Hp. unfold searchRun.
  rewrite normalize_withWorkers by exact Hn.
  rewrite run_projected. unfold startPool.
  rewrite normalize_withWorkers by exact Hn.
  rewrite walkAll_candidates, candidates_withWorkers.
  unfold projected. cbn [chan workers totals snd matchCount fileCount].
  rewrite idle_owes_nothing.
  rewrite (map_ext _ _ owedFile_withWorkers).
  destruct (sumPairs (map (owedFile cfg fs) (candidates cfg fs))).
  reflexivity.
Qed.

(** When the sequential search returns, it returns these counts, and
    the pool with [n] workers has a schedule that finishes. *)
Lemma Search_totals m f e :
  1 <= n ->
  Search (withWorkers cfg n) fs = Returns (m, f, e) ->
  (m, f) = sumPairs (map (owedFile cfg fs) (candidates cfg fs))
  /\ exists sched,
      finished (searchRun (withWorkers cfg n) fs sched) = true.
Proof.
  intros Hn. unfold Search, searchRun, startPool.
  rewrite normalize_withWorkers by exact Hn.
  rewrite walkAll_candidates, candidates_withWorkers.
  destruct (drain _ _ _ _) as [t| |] eqn:E; try discriminate.
  cbn [result snd]. intros [= <- <- _]. split.
  - apply drain_totals in E.
    rewrite (map_ext _ _ owedFile_withWorkers) in E.
    change (matchCount t, fileCount t) with (pairOf t). rewrite E.
    destruct (sumPairs (map (owedFile cfg fs) (candidates cfg fs))).
    reflexivity.
  - cbn [Workers withWorkers].
    destruct (Z.to_nat n) as [|k] eqn:Ek; [lia|]. cbn [repeat].
    destruct (drain_schedule _ _ _ _ _ (repeat Idle k) E) as [sched Hs].
    exists sched. rewrite Hs. unfold finished.
    cbn [crashed chan workers forallb isIdle negb andb].
    clear. induction k as [|k IH]; [reflexivity|exact IH].
Qed.
End WorkerCount.

(** C8: one worker and [n > 1] workers end with the same counts.  For
    every configuration and file system, whatever the two schedules, a
    search with one worker that has finished and a search with [n] workers
    that has finished hold the same [matchCount] and [fileCount]: the sum
    over the candidate files of what each file owes.  A sequential search
    that returns, returns these counts, and then the pool of either size
    has a schedule that finishes. *)
Theorem worker_count_same_totals `{GoLib} (cfg : Config) (fs : FileSystem)
        (n : Z) (sched1 schedN : list nat) :
  1 < n ->
  finished (searchRun (withWorkers cfg 1) fs sched1) = true ->
  finished (searchRun (withWorkers cfg n) fs schedN) = true ->
  totals (searchRun (withWorkers cfg 1) fs sched1)
  = totals (searchRun (withWorkers cfg n) fs schedN)
  /\ pairOf (totals (searchRun (withWorkers cfg n) fs schedN))
     = sumPairs (map (owedFile cfg fs) (candidates cfg fs))
  /\ (forall m f e,
         Search (withWorkers cfg 1) fs = Returns (m, f, e) ->
         (m, f) = pairOf (totals (searchRun (withWorkers cfg n) fs schedN))
         /\ Search (withWorkers cfg n) fs = Returns (m, f, e)).
Proof.
  intros Hn H1 HN.
  pose proof (finished_totals cfg fs 1 sched1 ltac:(lia) H1) as E1.
  pose proof (finished_totals cfg fs n schedN ltac:(lia) HN) as EN.
  split; [|split; [exact EN|]].
  - rewrite <- EN in E1. unfold pairOf in E1.
    destruct (totals (searchRun (withWorkers cfg 1) fs sched1)),
             (totals (searchRun (withWorkers cfg n) fs schedN)).
    cbn in E1. congruence.
  - intros m f e Hs. split.
    + destruct (Search_totals cfg fs 1 m f e ltac:(lia) Hs) as [-> _].
      symmetry. exact EN.
    + revert Hs. unfold Search.
      rewrite !normalize_withWorkers by lia.
      rewrite !walkAll_candidates, !candidates_withWorkers.
      rewrite !drain_withWorkers. exact (fun x => x).
Qed.

Lemma worker_count_same_totals_witness :
  1 < 3
  /\ finished (@searchRun sampleLib
                 (withWorkers (sampleConfig "hello" true false) 1)
                 sampleFS sampleSchedule1) = true
  /\ finished (@searchRun sampleLib
                 (withWorkers (sampleConfig "hello" true false) 3)
                 sampleFS sampleSchedule3) = true
  /\ totals (@searchRun sampleLib
                (withWorkers (sampleConfig "hello" true false) 1)
                sampleFS sampleSchedule1)
     = totals (@searchRun sampleLib
                 (withWorkers (sampleConfig "hello" true false) 3)
                 sampleFS sampleSchedule3).
Proof.
  assert (Hn : 1 < 3) by lia.
  assert (H1 : finished (@searchRun sampleLib
                 (withWorkers (sampleConfig "hello" true false) 1)
                 sampleFS sampleSchedule1) = true)
    by (vm_compute; reflexivity).
  assert (HN : finished (@searchRun sampleLib
                 (withWorkers (sampleConfig "hello" true false) 3)
                 sampleFS sampleSchedule3) = true)
    by (vm_compute; reflexivity).
  split; [exact Hn|]. split; [exact H1|]. split; [exact HN|].
  exact (proj1 (@worker_count_same_totals sampleLib
                  (sampleConfig "hello" true false) sampleFS 3
                  sampleSchedule1 sampleSchedule3 Hn H1 HN)).
Defined.

(** The sample search counts six matches in three files, with one worker
    or three. *)
Lemma sample_search_totals :
  @Search sampleLib (sampleConfig "hello" true false) sampleFS
  = Returns (6, 3, None)
  /\ totals (@searchRun sampleLib
                (withWorkers (sampleConfig "hello" true false) 3)
                sampleFS sampleSchedule3)
     = {| matchCount := 6; fileCount := 3 |}.
Proof. split; vm_compute; reflexivity. Qed.

(** With a pattern that does not compile no worker ever enters a scan:
    after any schedule the totals are zero and nothing has panicked. *)
Lemma invalid_pattern_pool `{GoLib} (cfg : Config) (fs : FileSystem) :
  Regexp cfg = true ->
  regexp_Compile (if IgnoreCase cfg then str "(?i)" ++ Keyword cfg
                  else Keyword cfg) = None ->
  forall sched,
    totals (searchRun cfg fs sched) = {| matchCount := 0; fileCount := 0 |}
    /\ crashed (searchRun cfg fs sched) = false
    /\ forallb isIdle (workers (searchRun cfg fs sched)) = true.
Proof.
  intros Huse Hbad sched. unfold searchRun.
  assert (Hidle : forall i ws,
             forallb isIdle ws = true ->
             forallb isIdle (setWorker i Idle ws) = true).
  { intros i ws. revert i. induction ws as [|w ws IH]; intros [|i] Hw;
      try reflexivity; cbn in *;
      apply andb_true_iff in Hw as [Hw1 Hw2]; [exact Hw2|].
    rewrite Hw1. exact (IH i Hw2). }
  assert (Hstep : forall i p,
             totals p = {| matchCount := 0; fileCount := 0 |}
             /\ crashed p = false /\ forallb isIdle (workers p) = true ->
             totals (step (normalize cfg) fs i p)
             = {| matchCount := 0; fileCount := 0 |}
             /\ crashed (step (normalize cfg) fs i p) = false
             /\ forallb isIdle (workers (step (normalize cfg) fs i p)) = true).
  { intros i p (Ht & Hc & Hw). unfold step. rewrite Hc.
    destruct (nth_error (workers p) i) as [w|] eqn:Hn; [|auto].
    assert (Hi : isIdle w = true).
    { rewrite forallb_forall in Hw. apply Hw. exact (nth_error_In _ _ Hn). }
    destruct w; try discriminate.
    destruct (chan p) as [|path rest]; [auto|].
    rewrite (openFile_invalid cfg fs Huse Hbad). cbn. auto. }
  assert (Hrun : forall p,
             totals p = {| matchCount := 0; fileCount := 0 |}
             /\ crashed p = false /\ forallb isIdle (workers p) = true ->
             totals (run (normalize cfg) fs sched p)
             = {| matchCount := 0; fileCount := 0 |}
             /\ crashed (run (normalize cfg) fs sched p) = false
             /\ forallb isIdle (workers (run (normalize cfg) fs sched p))
                = true).
  { induction sched as [|i sched IH]; intros p Hp; [exact Hp|].
    rewrite run_cons. apply IH, Hstep, Hp. }
  apply Hrun. unfold startPool. cbn [totals crashed workers].
  repeat split. induction (Z.to_nat _) as [|k IH]; [reflexivity|exact IH].
Qed.

(** C4: with [useRegex] set and a pattern that does not compile, every
    file is skipped: [processFile] returns at once and leaves the totals
    as they were, for every path; [Search] returns zero counts and a nil
    error, whatever files the walk sends; and in the worker pool, after
    any schedule, the totals are zero and no worker has panicked. *)
Theorem invalid_pattern_skips_every_file `{GoLib} (cfg : Config)
        (fs : FileSystem) :
  Regexp cfg = true ->
  regexp_Compile (if IgnoreCase cfg then str "(?i)" ++ Keyword cfg
                  else Keyword cfg) = None ->
  (forall path t, processFile path cfg fs t = Returns t)
  /\ (forall path t, processFile path (normalize cfg) fs t = Returns t)
  /\ Search cfg fs = Returns (0, 0, None)
  /\ (forall sched,
         totals (searchRun cfg fs sched)
         = {| matchCount := 0; fileCount := 0 |}
         /\ crashed (searchRun cfg fs sched) = false).
Proof.
  intros Huse Hbad. split; [|split; [|split]].
  - intros path t. unfold processFile, openFile. rewrite Huse.
    destruct (fs_open fs path); [|reflexivity].
    cbv beta iota zeta.
    destruct (regexp_Compile _) eqn:E; [|reflexivity].
    first [discriminate Hbad | congruence].
  - intros path t. apply processFile_invalid; assumption.
  - unfold Search. rewrite walkAll_candidates.
    rewrite drain_invalid by assumption. reflexivity.
  - intros sched.
    destruct (invalid_pattern_pool cfg fs Huse Hbad sched) as (Ht & Hc & _).
    split; assumption.
Qed.

Lemma invalid_pattern_skips_every_file_witness :
  Regexp (sampleConfig "(" false true) = true
  /\ @regexp_Compile sampleLib (str "(") = None
  /\ @Search sampleLib (sampleConfig "(" false true) sampleFS
     = Returns (0, 0, None).
Proof.
  assert (Huse : Regexp (sampleConfig "(" false true) = true)
    by reflexivity.
  assert (Hbad : @regexp_Compile sampleLib
                   (if IgnoreCase (sampleConfig "(" false true)
                    then str "(?i)" ++ Keyword (sampleConfig "(" false true)
                    else Keyword (sampleConfig "(" false true)) = None)
    by reflexivity.
  split; [exact Huse|]. split; [exact Hbad|].
  exact (proj1 (proj2 (proj2
    (@invalid_pattern_skips_every_file sampleLib
       (sampleConfig "(" false true) sampleFS Huse Hbad)))).
Defined.

(** * Further properties of the engine *)

(** ** Slices *)

Lemma slice_Some s lo hi x :
  slice s lo hi = Some x ->
  0 <= lo /\ lo <= hi /\ hi <= len s
  /\ x = firstn (Z.to_nat (hi - lo)) (skipn (Z.to_nat lo) s).
Proof.
  unfold slice.
  destruct ((0 <=? lo) && (lo <=? hi) && (hi <=? len s)) eqn:E;
    [|discriminate].
  intros [= <-]. rewrite !andb_true_iff, !Z.leb_le in E. tauto.
Qed.

Lemma slice_ok s lo hi :
  0 <= lo -> lo <= hi -> hi <= len s ->
  slice s lo hi = Some (firstn (Z.to_nat (hi - lo)) (skipn (Z.to_nat lo) s)).
Proof.
  intros H1 H2 H3. unfold slice.
  replace ((0 <=? lo) && (lo <=? hi) && (hi <=? len s)) with true;
    [reflexivity|].
  symmetry. rewrite !andb_true_iff, !Z.leb_le. tauto.
Qed.

Lemma firstn_plus {A : Type} (n m : nat) (l : list A) :
  firstn (n + m) l = firstn n l ++ firstn m (skipn n l).
Proof.
  revert l. induction n as [|n IH]; intros [|x l]; cbn;
    rewrite ?firstn_nil; try reflexivity.
  rewrite IH. reflexivity.
Qed.

(** Two adjacent slices make one. *)
Lemma slice_app s a b c x y :
  slice s a b = Some x -> slice s b c = Some y ->
  slice s a c = Some (x ++ y).
Proof.
  intros Hx Hy.
  apply slice_Some in Hx as (Ha & Hab & Hb & ->).
  apply slice_Some in Hy as (_ & Hbc & Hc & ->).
  rewrite slice_ok by lia. f_equal.
  replace (Z.to_nat (c - a)) with (Z.to_nat (b - a) + Z.to_nat (c - b))%nat
    by lia.
  rewrite firstn_plus, skipn_skipn. do 3 f_equal. lia.
Qed.

Lemma slice_whole s x : slice s 0 (len s) = Some x -> x = s.
Proof.
  intros Hx. apply slice_Some in Hx as (_ & _ & _ & ->).
  cbn [Z.to_nat skipn]. rewrite Z.sub_0_r. unfold len.
  rewrite Nat2Z.id. apply firstn_all.
Qed.

Lemma lineText_app a b : lineText (a ++ b) = lineText a ++ lineText b.
Proof. unfold lineText. apply flat_map_app. Qed.

Lemma spans_app a b : spans (a ++ b) = spans a ++ spans b.
Proof.
  induction a as [|[t|lo hi t] a IH]; cbn; rewrite ?IH; reflexivity.
Qed.

Lemma boldAreSlices_app line a b :
  boldAreSlices line (a ++ b) <-> boldAreSlices line a /\ boldAreSlices line b.
Proof.
  induction a as [|[t|lo hi t] a IH]; cbn; rewrite ?IH; tauto.
Qed.

Lemma spansInOrder_snoc sp :
  forall pos limit lo hi,
    spansInOrder pos sp limit -> limit <= lo -> lo <= hi ->
    spansInOrder pos (sp ++ [(lo, hi)]) hi.
Proof.
  induction sp as [|[l h] sp IH]; intros pos limit lo hi Hs H1 H2; cbn in *.
  - lia.
  - destruct Hs as (Ha & Hb & Hc). repeat split; try lia.
    exact (IH _ _ _ _ Hc H1 H2).
Qed.

Lemma spansInOrder_limit sp :
  forall pos limit limit',
    spansInOrder pos sp limit -> limit <= limit' ->
    spansInOrder pos sp limit'.
Proof.
  induction sp as [|[l h] sp IH]; intros pos limit limit' Hs Hl; cbn in *.
  - lia.
  - destruct Hs as (Ha & Hb & Hc). repeat split; try lia.
    exact (IH _ _ _ Hc Hl).
Qed.

(** ** What a printed line holds *)

Lemma printedUpTo_nil line : printedUpTo line [] 0.
Proof.
  unfold printedUpTo. cbn [lineText flat_map spans spansInOrder boldAreSlices].
  rewrite slice_ok by (pose proof (len_nonneg line); lia).
  cbn. repeat split; lia.
Qed.

(** Printing [line[pos:mid]] plain and [line[mid:hi]] bold moves the
    cursor to [hi]. *)
Lemma printedUpTo_step line segs pos mid hi pre hit :
  printedUpTo line segs pos ->
  slice line pos mid = Some pre ->
  slice line mid hi = Some hit ->
  printedUpTo line ((segs ++ [Plain (str "  " ++ pre)]) ++ [Bold mid hi hit])
              hi.
Proof.
  intros (Ht & Hb & Hs) Hpre Hhit. unfold printedUpTo.
  rewrite !lineText_app, !spans_app, !boldAreSlices_app.
  cbn [lineText flat_map segText spans boldAreSlices str
       list_ascii_of_string app skipn].
  rewrite !app_nil_r.
  pose proof (slice_Some _ _ _ _ Hpre) as (_ & H1 & _).
  pose proof (slice_Some _ _ _ _ Hhit) as (_ & H2 & _).
  split; [|split].
  - rewrite <- app_assoc.
    exact (slice_app _ _ _ _ _ _ Ht (slice_app _ _ _ _ _ _ Hpre Hhit)).
  - tauto.
  - exact (spansInOrder_snoc _ _ _ _ _ Hs H1 H2).
Qed.

(** The tail of the line completes the text. *)
Lemma printTail_text line segs pos out :
  printedUpTo line segs pos ->
  printTail line pos segs = Printed out ->
  lineText out = line /\ boldAreSlices line out
  /\ spansInOrder 0 (spans out) (len line).
Proof.
  intros (Ht & Hb & Hs). unfold printTail.
  pose proof (slice_Some _ _ _ _ Ht) as (_ & H0 & Hl & _).
  destruct (pos <? len line) eqn:E.
  - unfold slice_from. destruct (slice line pos (len line)) as [rest|] eqn:Hr;
      [|discriminate].
    intros [= <-].
    rewrite lineText_app, spans_app, boldAreSlices_app.
    cbn [lineText flat_map segText spans boldAreSlices str
         list_ascii_of_string app skipn].
    rewrite !app_nil_r. repeat split; try tauto.
    + exact (slice_whole _ _ (slice_app _ _ _ _ _ _ Ht Hr)).
    + exact (spansInOrder_limit _ _ _ _ Hs Hl).
  - intros [= <-]. apply Z.ltb_ge in E.
    assert (pos = len line) by lia. subst pos.
    repeat split; try tauto. exact (slice_whole _ _ Ht).
Qed.

Lemma literalLoop_printedUpTo line lowerLine lowerKeyword kwLen fuel :
  forall start acc segs stop,
    printedUpTo line acc start ->
    literalLoop fuel line lowerLine lowerKeyword kwLen start acc
    = Some (segs, Some stop) ->
    printedUpTo line segs stop.
Proof.
  induction fuel as [|fuel IH]; intros start acc segs stop Hacc Hl;
    [discriminate|].
  cbn [literalLoop] in Hl.
  destruct (slice_from lowerLine start) as [rest|]; [|discriminate].
  destruct (strings_Index rest lowerKeyword =? -1).
  - injection Hl as <- <-. exact Hacc.
  - destruct (slice line start (start + strings_Index rest lowerKeyword))
      as [pre|] eqn:Hpre; [|discriminate].
    destruct (slice line (start + strings_Index rest lowerKeyword)
                    (start + strings_Index rest lowerKeyword + kwLen))
      as [hit|] eqn:Hhit; [|discriminate].
    apply (IH _ _ _ _ (printedUpTo_step _ _ _ _ _ _ _ Hacc Hpre Hhit) Hl).
Qed.

Lemma regexLoop_printedUpTo line allMatches :
  forall pos acc out,
    printedUpTo line acc pos ->
    regexLoop line allMatches pos acc = Printed out ->
    lineText out = line /\ boldAreSlices line out
    /\ spansInOrder 0 (spans out) (len line).
Proof.
  induction allMatches as [|[s e] rest IH]; intros pos acc out Hacc Hr.
  - exact (printTail_text _ _ _ _ Hacc Hr).
  - cbn [regexLoop] in Hr.
    destruct (slice line pos s) as [pre|] eqn:Hpre; [|discriminate].
    destruct (slice line s e) as [hit|] eqn:Hhit; [|discriminate].
    exact (IH _ _ _ (printedUpTo_step _ _ _ _ _ _ _ Hacc Hpre Hhit) Hr).
Qed.

(** X1: whenever the print of a matching line completes, in literal or in
    regex mode, the pieces printed spell the line (unmatched text behind
    two spaces each time), every highlighted piece is the slice of the line
    between its offsets, and the highlighted spans follow each other
    without overlap inside the line. *)
Theorem printed_line_is_the_line `{GoLib} (cfg : Config) (re : option RegexpT)
        (line : gostring) (k : Z) (segs : list Seg) :
  processLine cfg re line = Hit k (Printed segs) ->
  lineText segs = line
  /\ boldAreSlices line segs
  /\ spansInOrder 0 (spans segs) (len line).
Proof.
  unfold processLine. destruct (Regexp cfg).
  - destruct re as [re|]; [|discriminate].
    destruct (FindStringIndex re line); [|discriminate].
    destruct (len (FindAllStringIndex re line) =? 0); [discriminate|].
    intros [= _ Hr].
    exact (regexLoop_printedUpTo _ _ _ _ _ (printedUpTo_nil line) Hr).
  - destruct (negb _); [discriminate|]. intros [= _ Hp].
    unfold printLiteral in Hp.
    destruct (literalLoop _ _ _ _ _ _ _) as [[out [stop|]]|] eqn:Hl;
      try discriminate.
    apply literalLoop_printedUpTo in Hl; [|apply printedUpTo_nil].
    exact (printTail_text _ _ _ _ Hl Hp).
Qed.

Lemma printed_line_is_the_line_witness :
  exists segs,
    @processLine sampleLib (sampleConfig "hello" true false) None
                 (str "Hello World") = Hit 1 (Printed segs)
    /\ lineText segs = str "Hello World".
Proof.
  eexists. 
  assert (Hp : @processLine sampleLib (sampleConfig "hello" true false) None
                 (str "Hello World")
               = Hit 1 (Printed
                   [Plain (str "  "); Bold 0 5 (str "Hello");
                    Plain (str "   World")])) by reflexivity.
  split; [exact Hp|].
  exact (proj1 (@printed_line_is_the_line sampleLib _ _ _ _ _ Hp)).
Defined.

(** ** The spans of literal mode *)

Lemma occurrencesOf_skip sub s :
  forall pos k,
    occurrencesOf s sub pos k
    = occurrencesOf (skipn k s) sub (pos + Z.of_nat k) 0.
Proof.
  induction s as [|c s IH]; intros pos k.
  - destruct k; reflexivity.
  - destruct k as [|k].
    + cbn [skipn Z.of_nat]. rewrite Z.add_0_r. reflexivity.
    + cbn [occurrencesOf skipn]. rewrite IH. f_equal. lia.
Qed.

(** [Index] finds the first of the non-overlapping occurrences. *)
Lemma indexFrom_occurrencesOf sub s :
  sub <> [] ->
  forall i pos,
    0 <= i ->
    (indexFrom s sub i = -1 -> occurrencesOf s sub pos 0 = [])
    /\ (indexFrom s sub i <> -1 ->
        occurrencesOf s sub pos 0
        = (pos + (indexFrom s sub i - i),
           pos + (indexFrom s sub i - i) + len sub)
            :: occurrencesOf
                 (skipn (Z.to_nat (indexFrom s sub i - i + len sub)) s) sub
                 (pos + (indexFrom s sub i - i) + len sub) 0).
Proof.
  intros Hne. induction s as [|c s IH]; intros i pos Hi.
  - destruct sub as [|d sub]; [congruence|]. cbn. split; congruence.
  - cbn [indexFrom occurrencesOf].
    destruct (hasPrefix (c :: s) sub) eqn:E.
    + split; [lia|]. intros _.
      rewrite Z.sub_diag, Z.add_0_r, Z.add_0_l.
      rewrite occurrencesOf_skip. f_equal.
      assert (Hl : (1 <= List.length sub)%nat)
        by (destruct sub; [congruence|cbn; lia]).
      unfold len. rewrite Nat2Z.id.
      replace (List.length sub) with (S (Nat.pred (List.length sub))) at 3
        by lia.
      cbn [skipn]. f_equal. lia.
    + destruct (IH (i + 1) (pos + 1) ltac:(lia)) as [H1 H2]. split.
      * exact H1.
      * intros Hm.
        destruct (indexFrom_range s sub (i + 1)) as [Em|[Hge _]];
          [contradiction|].
        rewrite (H2 Hm).
        pose proof (len_nonneg sub).
        replace (Z.to_nat (indexFrom s sub (i + 1) - i + len sub))
          with (S (Z.to_nat (indexFrom s sub (i + 1) - (i + 1) + len sub)))
          by lia.
        cbn [skipn]. f_equal; [f_equal; lia|f_equal; lia].
Qed.

Lemma slice_from_eq s lo rest :
  slice_from s lo = Some rest -> rest = skipn (Z.to_nat lo) s.
Proof.
  unfold slice_from. intros Hs.
  apply slice_Some in Hs as (H0 & H1 & _ & ->).
  apply firstn_all2. rewrite length_skipn. unfold len in *. lia.
Qed.

Lemma literalLoop_spans line lowerLine lowerKeyword kwLen fuel :
  lowerKeyword <> [] -> kwLen = len lowerKeyword ->
  forall start acc segs stop,
    literalLoop fuel line lowerLine lowerKeyword kwLen start acc
    = Some (segs, stop) ->
    exists found,
      spans segs = spans acc ++ found
      /\ (stop <> None ->
          found = occurrencesOf (skipn (Z.to_nat start) lowerLine)
                                lowerKeyword start 0).
Proof.
  intros Hne ->. induction fuel as [|fuel IH]; intros start acc segs stop Hl;
    [discriminate|].
  cbn [literalLoop] in Hl.
  destruct (slice_from lowerLine start) as [rest|] eqn:Hrest.
  2:{ injection Hl as <- <-. exists []. rewrite app_nil_r. split; congruence. }
  pose proof (slice_from_Some _ _ _ Hrest) as [Hstart _].
  apply slice_from_eq in Hrest. subst rest.
  set (rest := skipn (Z.to_nat start) lowerLine) in *.
  destruct (indexFrom_occurrencesOf lowerKeyword rest Hne 0 start
              ltac:(lia)) as [Hnone Hsome].
  fold (strings_Index rest lowerKeyword) in Hnone, Hsome.
  destruct (strings_Index rest lowerKeyword =? -1) eqn:E.
  - injection Hl as <- <-. apply Z.eqb_eq in E. exists [].
    rewrite app_nil_r. split; [reflexivity|]. intros _. symmetry.
    exact (Hnone E).
  - apply Z.eqb_neq in E.
    destruct (strings_Index_range rest lowerKeyword) as [Em|[Hidx _]];
      [contradiction|].
    destruct (slice line start (start + strings_Index rest lowerKeyword))
      as [pre|].
    2:{ injection Hl as <- <-. exists []. rewrite app_nil_r.
        split; congruence. }
    destruct (slice line (start + strings_Index rest lowerKeyword)
                    (start + strings_Index rest lowerKeyword
                     + len lowerKeyword)) as [hit|].
    2:{ injection Hl as <- <-. exists []. rewrite spans_app. cbn.
        split; congruence. }
    apply IH in Hl as (found & Hs & Hf).
    rewrite !spans_app in Hs. cbn [spans app] in Hs.
    rewrite app_nil_r, <- app_assoc in Hs. cbn [app] in Hs.
    eexists. split; [exact Hs|]. intros Hstop.
    rewrite (Hsome E), !Z.sub_0_r. f_equal.
    rewrite (Hf Hstop). subst rest. rewrite skipn_skipn. f_equal. f_equal.
    pose proof (len_nonneg lowerKeyword). lia.
Qed.

(** X2: in literal mode with a non-empty keyword whose lower-case form
    has the same length, the spans of a line whose print completes are
    exactly the non-overlapping occurrences, left to right, of the
    lower-cased keyword in the lower-cased line. *)
Theorem literal_spans_are_folded_occurrences `{GoLib} (cfg : Config)
        (re : option RegexpT) (line : gostring) (k : Z) (segs : list Seg) :
  Regexp cfg = false ->
  Keyword cfg <> [] ->
  len (strings_ToLower (Keyword cfg)) = len (Keyword cfg) ->
  processLine cfg re line = Hit k (Printed segs) ->
  spans segs
  = occurrencesOf (strings_ToLower line) (strings_ToLower (Keyword cfg)) 0 0.
Proof.
  intros Hre Hne Hlen. unfold processLine. rewrite Hre.
  destruct (negb _); [discriminate|]. intros [= _ Hp].
  unfold printLiteral in Hp.
  destruct (literalLoop _ _ _ _ _ _ _) as [[out [stop|]]|] eqn:Hl;
    try discriminate.
  assert (Hlk : strings_ToLower (Keyword cfg) <> []).
  { intros E. rewrite E in Hlen. destruct (Keyword cfg); [congruence|].
    unfold len in Hlen. cbn in Hlen. lia. }
  apply literalLoop_spans in Hl as (found & Hs & Hf);
    [|exact Hlk|symmetry; exact Hlen].
  cbn [spans app Z.to_nat skipn] in Hs, Hf.
  rewrite <- (Hf ltac:(discriminate)), <- Hs.
  unfold printTail in Hp.
  destruct (stop <? len line).
  - destruct (slice_from line stop); [|discriminate].
    injection Hp as <-. rewrite spans_app. cbn. apply app_nil_r.
  - injection Hp as <-. reflexivity.
Qed.

Lemma literal_spans_are_folded_occurrences_witness :
  exists segs,
    @processLine sampleLib (sampleConfig "aa" true false) None
                 (str "AA aa aaa") = Hit 1 (Printed segs)
    /\ spans segs = [(0, 2); (3, 5); (6, 8)].
Proof.
  eexists.
  assert (Hp : @processLine sampleLib (sampleConfig "aa" true false) None
                 (str "AA aa aaa")
               = Hit 1 (Printed
                   [Plain (str "  "); Bold 0 2 (str "AA");
                    Plain (str "   "); Bold 3 5 (str "aa");
                    Plain (str "   "); Bold 6 8 (str "aa");
                    Plain (str "  a")])) by reflexivity.
  split; [exact Hp|].
  exact (@literal_spans_are_folded_occurrences sampleLib
           (sampleConfig "aa" true false) None (str "AA aa aaa") 1 _
           eq_refl ltac:(discriminate) eq_refl Hp).
Defined.

(** ** When the print of a line cannot fail *)

Lemma literalLoop_in_range line lowerLine lowerKeyword kwLen fuel :
  len lowerLine = len line -> kwLen = len lowerKeyword ->
  forall start acc r,
    0 <= start <= len line ->
    literalLoop fuel line lowerLine lowerKeyword kwLen start acc = Some r ->
    exists segs stop, r = (segs, Some stop) /\ 0 <= stop <= len line.
Proof.
  intros Hlen ->. induction fuel as [|fuel IH]; intros start acc r Hs Hl;
    [discriminate|].
  cbn [literalLoop] in Hl. unfold slice_from in Hl.
  rewrite slice_ok in Hl by lia.
  set (rest := firstn _ _) in Hl.
  assert (Hrest : len rest = len lowerLine - start).
  { subst rest. unfold len in *. rewrite length_firstn, length_skipn. lia. }
  destruct (strings_Index_range rest lowerKeyword) as [Em|[H0 Hfit]].
  - rewrite Em in Hl. injection Hl as <-. eauto.
  - destruct (strings_Index rest lowerKeyword =? -1).
    + injection Hl as <-. eauto.
    + rewrite !slice_ok in Hl by (pose proof (len_nonneg lowerKeyword); lia).
      apply IH in Hl; [exact Hl|].
      pose proof (len_nonneg lowerKeyword). lia.
Qed.

Lemma printLiteral_prints `{GoLib} (cfg : Config) (line : gostring) :
  Keyword cfg <> [] ->
  len (strings_ToLower line) = len line ->
  len (strings_ToLower (Keyword cfg)) = len (Keyword cfg) ->
  exists segs, printLiteral cfg line = Printed segs.
Proof.
  intros Hne Hline Hkw. unfold printLiteral.
  assert (Hk : 1 <= len (Keyword cfg)).
  { unfold len. destruct (Keyword cfg); [congruence|]. cbn [List.length]. lia. }
  destruct (literalLoop_enough line (strings_ToLower line)
              (strings_ToLower (Keyword cfg)) (len (Keyword cfg))
              (S (S (List.length (strings_ToLower line)))) Hk 0 [])
    as [r Hr]; [lia|unfold len; lia|].
  rewrite Hr.
  apply literalLoop_in_range in Hr as (segs & stop & -> & Hstop);
    [|exact Hline|symmetry; exact Hkw|pose proof (len_nonneg line); lia].
  unfold printTail, slice_from. destruct (stop <? len line); [|eauto].
  rewrite slice_ok by lia. eauto.
Qed.

Lemma strings_ToLower_ascii `{GoLib} (s : gostring) :
  asciiOnly s = true -> len (strings_ToLower s) = len s.
Proof.
  unfold asciiOnly, strings_ToLower. intros ->.
  unfold len. rewrite length_map. reflexivity.
Qed.

Lemma processLine_ascii `{GoLib} (cfg : Config) (re : option RegexpT)
      (line : gostring) :
  Regexp cfg = false ->
  Keyword cfg <> [] ->
  asciiOnly (Keyword cfg) = true ->
  asciiOnly line = true ->
  processLine cfg re line = NoMatch
  \/ exists segs, processLine cfg re line = Hit 1 (Printed segs).
Proof.
  intros Hre Hne Hkw Hline. unfold processLine. rewrite Hre.
  destruct (negb _); [left; reflexivity|right].
  destruct (printLiteral_prints cfg line Hne
              (strings_ToLower_ascii _ Hline) (strings_ToLower_ascii _ Hkw))
    as [segs ->].
  eauto.
Qed.

(** X3: in literal mode, with a non-empty keyword, a line and a keyword
    made of ASCII bytes only are always printed to the end: the line is
    skipped, or it counts for 1 and its print completes, without a slice
    out of range and without looping.  The same holds of any line and
    keyword whose lower-case forms have their lengths. *)
Theorem literal_ascii_line_prints `{GoLib} (cfg : Config)
        (re : option RegexpT) (line : gostring) :
  Regexp cfg = false ->
  Keyword cfg <> [] ->
  (asciiOnly (Keyword cfg) = true /\ asciiOnly line = true)
  \/ (len (strings_ToLower (Keyword cfg)) = len (Keyword cfg)
      /\ len (strings_ToLower line) = len line) ->
  processLine cfg re line = NoMatch
  \/ exists segs, processLine cfg re line = Hit 1 (Printed segs).
Proof.
  intros Hre Hne [[Hkw Hline]|[Hkw Hline]].
  - exact (processLine_ascii cfg re line Hre Hne Hkw Hline).
  - unfold processLine. rewrite Hre.
    destruct (negb _); [left; reflexivity|right].
    destruct (printLiteral_prints cfg line Hne Hline Hkw) as [segs ->].
    eauto.
Qed.

Lemma literal_ascii_line_prints_witness :
  exists segs,
    @processLine sampleLib (sampleConfig "hello" true false) None
                 (str "Hello World") = Hit 1 (Printed segs).
Proof.
  destruct (@literal_ascii_line_prints sampleLib
              (sampleConfig "hello" true false) None (str "Hello World")
              eq_refl ltac:(discriminate) (or_introl (conj eq_refl eq_refl)))
    as [E|E].
  - discriminate E.
  - exact E.
Defined.

Lemma regexLoop_prints line allMatches :
  forall pos acc,
    0 <= pos ->
    spansInOrder pos allMatches (len line) ->
    exists out,
      regexLoop line allMatches pos acc = Printed out
      /\ spans out = spans acc ++ allMatches.
Proof.
  induction allMatches as [|[s e] rest IH]; intros pos acc Hpos Hord.
  - cbn in Hord. cbn [regexLoop]. unfold printTail, slice_from.
    destruct (pos <? len line).
    + rewrite slice_ok by lia. eexists. split; [reflexivity|].
      rewrite spans_app. reflexivity.
    + eexists. split; [reflexivity|]. symmetry. apply app_nil_r.
  - cbn [spansInOrder] in Hord. destruct Hord as (H1 & H2 & H3).
    assert (He : e <= len line).
    { clear - H3. revert e H3. induction rest as [|[a b] rest IHr];
        intros e H3; cbn in H3; [exact H3|].
      destruct H3 as (Ha & Hb & Hc). apply IHr in Hc. lia. }
    cbn [regexLoop]. rewrite !slice_ok by lia.
    destruct (IH e ((acc ++ [Plain (str "  " ++ firstn (Z.to_nat (s - pos))
                                       (skipn (Z.to_nat pos) line))])
                      ++ [Bold s e (firstn (Z.to_nat (e - s))
                                      (skipn (Z.to_nat s) line))])
                 ltac:(lia) H3) as (out & Hout & Hsp).
    exists out. split; [exact Hout|].
    rewrite Hsp, !spans_app. cbn [spans app].
    rewrite app_nil_r, <- app_assoc. reflexivity.
Qed.

(** X4: in regex mode, when the matches [FindAllStringIndex] reports for
    a line follow each other without overlap inside the line, the line is
    printed to the end and the highlighted spans are exactly those
    matches, in order. *)
Theorem regex_line_prints_the_matches `{GoLib} (cfg : Config) (re : RegexpT)
        (line : gostring) (k : Z) (pr : PrintResult) :
  spansInOrder 0 (FindAllStringIndex re line) (len line) ->
  processLine cfg (Some re) line = Hit k pr ->
  Regexp cfg = true ->
  exists segs,
    pr = Printed segs /\ spans segs = FindAllStringIndex re line
    /\ k = len (spans segs).
Proof.
  intros Hord Hp Hre. unfold processLine in Hp. rewrite Hre in Hp.
  destruct (FindStringIndex re line); [|discriminate].
  destruct (len (FindAllStringIndex re line) =? 0); [discriminate|].
  injection Hp as <- <-.
  destruct (regexLoop_prints line _ 0 [] ltac:(lia) Hord) as (out & -> & Hs).
  exists out. cbn [spans app] in Hs. rewrite Hs. auto.
Qed.

Lemma regex_line_prints_the_matches_witness :
  exists segs,
    @processLine sampleLib (sampleConfig "cat" false true)
                 (Some (false, str "cat")) (str "cat bat cat")
    = Hit 2 (Printed segs)
    /\ spans segs = [(0, 3); (8, 11)].
Proof.
  assert (Hord : spansInOrder 0
            (@FindAllStringIndex sampleLib (false, str "cat")
               (str "cat bat cat")) (len (str "cat bat cat")))
    by (vm_compute; intuition discriminate).
  assert (Hp : @processLine sampleLib (sampleConfig "cat" false true)
                 (Some (false, str "cat")) (str "cat bat cat")
               = Hit 2 (@regexLoop (str "cat bat cat")
                          [(0, 3); (8, 11)] 0 [])) by reflexivity.
  destruct (@regex_line_prints_the_matches sampleLib
              (sampleConfig "cat" false true) (false, str "cat")
              (str "cat bat cat") 2 _ Hord Hp eq_refl)
    as (segs & Hpr & Hs & _).
  exists segs. split; [|exact Hs].
  rewrite Hp. f_equal. exact Hpr.
Defined.

(** ** Whole files in literal mode *)

Lemma strings_Contains_nil s : strings_Contains s [] = true.
Proof. unfold strings_Contains, strings_Index. destruct s; reflexivity. Qed.

Lemma processLine_empty_keyword `{GoLib} (cfg : Config) re line :
  Regexp cfg = false -> Keyword cfg = [] ->
  processLine cfg re line = Hit 1 Hangs.
Proof.
  intros Hre Hk. unfold processLine.
  rewrite Hre, (printLiteral_empty_keyword cfg line Hk), Hk.
  rewrite strings_ToLower_nil.
  destruct (IgnoreCase cfg); rewrite strings_Contains_nil; reflexivity.
Qed.

Lemma drain_empty_keyword `{GoLib} (cfg : Config) (fs : FileSystem) queue :
  Regexp cfg = false -> Keyword cfg = [] ->
  forall t,
    (exists path line rest,
        In path queue /\ fs_open fs path = Some (line :: rest)) ->
    drain cfg fs queue t = NeverReturns.
Proof.
  intros Hre Hk. induction queue as [|p queue IH];
    intros t (path & line & rest & Hin & Hopen); [destruct Hin|].
  cbn [drain]. unfold processFile, openFile. rewrite Hre.
  destruct (fs_open fs p) as [[|l ls]|] eqn:Hp.
  - cbn [scanLines]. apply IH.
    destruct Hin as [->|Hin]; [congruence|eauto 6].
  - cbn [scanLines]. rewrite (processLine_empty_keyword cfg None l Hre Hk).
    reflexivity.
  - apply IH. destruct Hin as [->|Hin]; [congruence|eauto 6].
Qed.

(** X5: with an empty keyword in literal mode every line matches and its
    highlighting never ends: the scan of a file that has a line does not
    return, after counting that line, and a search that sends such a file
    does not return either. *)
Theorem empty_keyword_never_returns `{GoLib} (cfg : Config) (fs : FileSystem)
        (path line : gostring) (rest : list gostring) :
  Regexp cfg = false ->
  Keyword cfg = [] ->
  fs_open fs path = Some (line :: rest) ->
  (forall re l, processLine cfg re l = Hit 1 Hangs)
  /\ (forall t, processFile path cfg fs t = NeverReturns)
  /\ (In path (candidates cfg fs) -> Search cfg fs = NeverReturns).
Proof.
  intros Hre Hk Hopen. split; [|split].
  - intros re l. exact (processLine_empty_keyword cfg re l Hre Hk).
  - intros t. unfold processFile, openFile. rewrite Hopen, Hre.
    cbn [scanLines]. rewrite (processLine_empty_keyword cfg None line Hre Hk).
    reflexivity.
  - intros Hin. unfold Search. rewrite walkAll_candidates.
    destruct (normalize_fields cfg) as (_ & Hnk & _ & _ & _ & Hnr & _).
    rewrite drain_empty_keyword;
      [reflexivity|congruence|congruence|].
    exists path, line, rest. split; [|exact Hopen].
    revert Hin. unfold normalize. destruct (Workers cfg <=? 0);
      [|exact (fun x => x)].
    exact (fun x => x).
Qed.

Lemma empty_keyword_never_returns_witness :
  @Search sampleLib (sampleConfig "" false false) sampleFS = NeverReturns.
Proof.
  refine (proj2 (proj2
    (@empty_keyword_never_returns sampleLib (sampleConfig "" false false)
       sampleFS (str "root/a.GO") (str "hello aa aa")
       [str "zz"; str "Hello"] eq_refl eq_refl eq_refl)) _).
  cbn. tauto.
Defined.

Section LiteralCounts.
Context `{GoLib}.
Variable cfg : Config.
Hypothesis Hliteral : Regexp cfg = false.

Lemma processLine_literal re line :
  processLine cfg re line
  = if literalMatch cfg line then Hit 1 (printLiteral cfg line) else NoMatch.
Proof.
  unfold processLine, literalMatch. rewrite Hliteral.
  destruct (IgnoreCase cfg); destruct (strings_Contains _ _); reflexivity.
Qed.

Lemma scanLines_literal re lines :
  forall fm t t',
    scanLines cfg re lines fm t = Returns t' ->
    matchCount t' = matchCount t + len (filter (literalMatch cfg) lines)
    /\ fileCount t'
       = fileCount t
         + (if fm then 0
            else if existsb (literalMatch cfg) lines then 1 else 0).
Proof.
  induction lines as [|line rest IH]; intros fm t t' Hs.
  - injection Hs as <-. cbn. destruct fm; lia.
  - cbn [scanLines] in Hs. rewrite processLine_literal in Hs.
    cbn [filter existsb].
    destruct (literalMatch cfg line).
    + rewrite locked_spec in Hs.
      destruct (printLiteral cfg line); try discriminate.
      apply IH in Hs as [Hm Hf]. cbn [matchCount fileCount] in Hm, Hf.
      unfold len in *. cbn [List.length orb]. destruct fm; lia.
    + apply IH in Hs. cbn [orb]. exact Hs.
Qed.
End LiteralCounts.

Lemma literal_file_counts_matching_lines_aux `{GoLib} (cfg : Config)
      (fs : FileSystem) (path : gostring) (lines : list gostring)
      (t t' : Totals) :
  Regexp cfg = false ->
  fs_open fs path = Some lines ->
  processFile path cfg fs t = Returns t' ->
  matchCount t' = matchCount t + len (filter (literalMatch cfg) lines)
  /\ fileCount t'
     = fileCount t + (if existsb (literalMatch cfg) lines then 1 else 0).
Proof.
  intros Hre Hopen. unfold processFile, openFile. rewrite Hopen, Hre.
  intros Hs. exact (scanLines_literal cfg Hre _ _ _ _ _ Hs).
Qed.

(** X6: in literal mode a file that is scanned to its end adds to
    [matchCount] the number of its lines that contain the keyword (lower
    case against lower case when case is ignored), however many times a
    line contains it, and adds 1 to [fileCount] exactly when there is such
    a line. *)
Theorem literal_file_counts_matching_lines `{GoLib} (cfg : Config)
        (fs : FileSystem) (path : gostring) (lines : list gostring)
        (t t' : Totals) :
  Regexp cfg = false ->
  fs_open fs path = Some lines ->
  processFile path cfg fs t = Returns t' ->
  matchCount t' = matchCount t + len (filter (literalMatch cfg) lines)
  /\ fileCount t'
     = fileCount t + (if existsb (literalMatch cfg) lines then 1 else 0).
Proof.
  intros Hre Hopen. unfold processFile, openFile. rewrite Hopen, Hre.
  intros Hs. exact (scanLines_literal cfg Hre _ _ _ _ _ Hs).
Qed.

Lemma literal_file_counts_matching_lines_witness :
  @processFile sampleLib (str "root/a.GO") (sampleConfig "aa" false false)
               sampleFS {| matchCount := 0; fileCount := 0 |}
  = Returns {| matchCount := 1; fileCount := 1 |}.
Proof.
  assert (Hp : exists t',
             @processFile sampleLib (str "root/a.GO")
                          (sampleConfig "aa" false false) sampleFS
                          {| matchCount := 0; fileCount := 0 |}
             = Returns t') by (eexists; reflexivity).
  destruct Hp as [t' Hp]. rewrite Hp. f_equal.
  destruct (@literal_file_counts_matching_lines sampleLib
              (sampleConfig "aa" false false) sampleFS (str "root/a.GO")
              [str "hello aa aa"; str "zz"; str "Hello"] _ t'
              eq_refl eq_refl Hp) as [Hm Hf].
  destruct t' as [m f]. cbn in Hm, Hf. congruence.
Defined.

Lemma scanLines_ascii `{GoLib} (cfg : Config) re lines :
  Regexp cfg = false -> Keyword cfg <> [] ->
  asciiOnly (Keyword cfg) = true ->
  forallb asciiOnly lines = true ->
  forall fm t, exists t', scanLines cfg re lines fm t = Returns t'.
Proof.
  intros Hre Hne Hkw. induction lines as [|line rest IH]; intros Hl fm t.
  - eexists. reflexivity.
  - cbn [forallb] in Hl. apply andb_true_iff in Hl as [Hline Hrest].
    cbn [scanLines].
    destruct (processLine_ascii cfg re line Hre Hne Hkw Hline)
      as [->|[segs ->]]; [exact (IH Hrest fm t)|].
    destruct (locked 1 fm t). exact (IH Hrest _ _).
Qed.

(** X7: a literal search with a non-empty ASCII keyword over files whose
    lines are ASCII only always returns, with a nil error: no file makes
    it panic or loop. *)
Theorem literal_ascii_search_returns `{GoLib} (cfg : Config)
        (fs : FileSystem) :
  Regexp cfg = false ->
  Keyword cfg <> [] ->
  asciiOnly (Keyword cfg) = true ->
  (forall path lines,
      fs_open fs path = Some lines -> forallb asciiOnly lines = true) ->
  exists m f, Search cfg fs = Returns (m, f, None) /\ 0 <= f <= m.
Proof.
  intros Hre Hne Hkw Hfs.
  destruct (normalize_fields cfg) as (_ & Hnk & _ & _ & _ & Hnr & _).
  assert (Hd : forall queue t,
             exists t', drain (normalize cfg) fs queue t = Returns t'
                        /\ fileCount t <= fileCount t').
  { induction queue as [|p queue IH]; intros t;
      [eexists; split; [reflexivity|lia]|].
    cbn [drain]. unfold processFile at 1, openFile. rewrite Hnr, Hre.
    destruct (fs_open fs p) as [lines|] eqn:Hp.
    - destruct (scanLines_ascii (normalize cfg) None lines
                  ltac:(congruence) ltac:(congruence) ltac:(congruence)
                  (Hfs _ _ Hp) false t) as [t1 Ht1].
      rewrite Ht1. destruct (IH t1) as (t' & Ht' & Hle).
      exists t'. split; [exact Ht'|].
      apply scanLines_counts in Ht1. lia.
    - exact (IH t). }
  unfold Search. rewrite walkAll_candidates.
  destruct (Hd (candidates (normalize cfg) fs)
               {| matchCount := 0; fileCount := 0 |}) as (t' & Ht' & Hle).
  rewrite Ht'. exists (matchCount t'), (fileCount t').
  split; [reflexivity|].
  apply drain_invariant in Ht'; cbn in *; lia.
Qed.

Lemma literal_ascii_search_returns_witness :
  exists m f,
    @Search sampleLib (sampleConfig "hello" true false) sampleFS
    = Returns (m, f, None) /\ 0 <= f <= m.
Proof.
  apply (@literal_ascii_search_returns sampleLib
           (sampleConfig "hello" true false) sampleFS eq_refl).
  - discriminate.
  - reflexivity.
  - intros path lines [= <-]. reflexivity.
Defined.

(** ** The worker pool *)

Section PoolFacts.
Context `{GoLib}.
Variables (cfg : Config) (fs : FileSystem).

Lemma setWorker_length i w ws :
  List.length (setWorker i w ws) = List.length ws.
Proof.
  revert i. induction ws as [|w0 ws IH]; intros [|i]; cbn;
    rewrite ?IH; reflexivity.
Qed.

Lemma step_workers_length i p :
  List.length (workers (step cfg fs i p)) = List.length (workers p).
Proof.
  unfold step. destruct (crashed p); [reflexivity|].
  destruct (nth_error (workers p) i) as [[|re [|line rest] fm|re l fm]|];
    try reflexivity.
  - destruct (chan p); [reflexivity|]. apply setWorker_length.
  - apply setWorker_length.
  - destruct (processLine cfg re line) as [|k pr];
      [apply setWorker_length|].
    destruct (locked k fm (totals p)). destruct pr; apply setWorker_length.
Qed.

Lemma run_workers_length sched :
  forall p,
    List.length (workers (run cfg fs sched p)) = List.length (workers p).
Proof.
  induction sched as [|i sched IH]; intros p; [reflexivity|].
  rewrite run_cons, IH. apply step_workers_length.
Qed.



Lemma sum_setWorker_nat (f : Worker -> nat) ws :
  forall i w w',
    nth_error ws i = Some w ->
    (list_sum (map f (setWorker i w' ws)) + f w
     = list_sum (map f ws) + f w')%nat.
Proof.
  induction ws as [|w0 ws IH]; intros [|i] w w' Hn; try discriminate.
  - injection Hn as ->. unfold list_sum. cbn [setWorker map fold_right]. lia.
  - cbn in Hn. specialize (IH i w w' Hn). unfold list_sum in *.
    cbn [setWorker map fold_right]. lia.
Qed.

(** A step changes nothing or uses up some of the work left. *)
Lemma step_poolLeft i p :
  step cfg fs i p = p
  \/ (poolLeft cfg fs (step cfg fs i p) < poolLeft cfg fs p)%nat.
Proof.
  unfold step. destruct (crashed p); [left; reflexivity|].
  destruct (nth_error (workers p) i) as [w|] eqn:Hn; [|left; reflexivity].
  pose proof (fun w' => sum_setWorker_nat workerLeft _ _ _ w' Hn) as Hset.
  assert (Hgo : forall w' c t b,
             (workerLeft w' + list_sum (map (fileWeight cfg fs) c)
              < workerLeft w + list_sum (map (fileWeight cfg fs) (chan p)))%nat ->
             (poolLeft cfg fs
                {| chan := c; workers := setWorker i w' (workers p);
                   totals := t; crashed := b |}
              < poolLeft cfg fs p)%nat).
  { intros w' c t b Hlt. specialize (Hset w').
    unfold poolLeft. cbn [chan workers]. lia. }
  destruct w as [|re [|line rest] fm|re l fm]; [| | |left; reflexivity].
  - destruct (chan p) as [|path rest] eqn:Hc; [left; reflexivity|right].
    apply Hgo. unfold list_sum. cbn [map fold_right]. unfold fileWeight at 2.
    destruct (openFile cfg fs path) as [[re lines]|]; cbn [workerLeft]; lia.
  - right. apply Hgo. cbn [workerLeft List.length]. lia.
  - right.
    destruct (processLine cfg re line) as [|k pr].
    + apply Hgo. cbn [workerLeft List.length]. lia.
    + destruct (locked k fm (totals p)) as [t' fm'].
      destruct pr; apply Hgo; cbn [workerLeft List.length]; lia.
Qed.

(** A worker inside a scan can always take a step. *)
Lemma scanning_worker_steps p :
  crashed p = false ->
  forallb isIdle (workers p) = false ->
  forallb (fun w => negb (isStuck w)) (workers p) = true ->
  exists i, (poolLeft cfg fs (step cfg fs i p) < poolLeft cfg fs p)%nat.
Proof.
  intros Hc Hi Hs.
  assert (Hex : exists i re lines fm,
             nth_error (workers p) i = Some (Scanning re lines fm)).
  { induction (workers p) as [|w ws IH]; [discriminate|].
    cbn in Hi, Hs. apply andb_true_iff in Hs as [Hw Hs].
    destruct w as [|re lines fm|]; try discriminate.
    - destruct (IH Hi Hs) as (i & re & lines & fm & Hn).
      exists (S i), re, lines, fm. exact Hn.
    - exists 0%nat, re, lines, fm. reflexivity. }
  destruct Hex as (i & re & lines & fm & Hn). exists i.
  destruct (step_poolLeft i p) as [E|Hlt]; [|exact Hlt].
  exfalso. unfold step in E. rewrite Hc, Hn in E.
  assert (Hw : forall w' c t b,
             {| chan := c; workers := setWorker i w' (workers p);
                totals := t; crashed := b |} = p ->
             w' = Scanning re lines fm).
  { intros w' c t b Hp. rewrite <- Hp in Hn. cbn [workers] in Hn.
    clear - Hn. revert Hn. generalize (workers p). revert i.
    induction i as [|i IHi]; intros [|w0 ws] Hn; cbn in Hn;
      try discriminate.
    - congruence.
    - exact (IHi _ Hn). }
  destruct lines as [|line rest].
  - apply Hw in E. discriminate.
  - destruct (processLine cfg re line) as [|k pr].
    + apply Hw in E. injection E as E.
      apply (f_equal (@List.length _)) in E. cbn in E. lia.
    + destruct (locked k fm (totals p)) as [t' fm'].
      destruct pr; apply Hw in E; try discriminate;
        injection E as E _;
        apply (f_equal (@List.length _)) in E; cbn in E; lia.
Qed.
End PoolFacts.

(** X8: the pool of a search has [cfg.Workers] workers, or 4 when
    [cfg.Workers] is zero or negative, and keeps that number through every
    schedule. *)
Theorem pool_size_is_normalized_workers `{GoLib} (cfg : Config)
        (fs : FileSystem) (sched : list nat) :
  List.length (workers (searchRun cfg fs sched))
  = Z.to_nat (if Workers cfg <=? 0 then 4 else Workers cfg)
  /\ (1 <= List.length (workers (searchRun cfg fs sched)))%nat.
Proof.
  unfold searchRun. rewrite run_workers_length. unfold startPool.
  cbn [workers]. rewrite repeat_length. unfold normalize.
  destruct (Workers cfg <=? 0) eqn:E; cbn [Workers]; [split; [reflexivity|lia]|].
  apply Z.leb_gt in E. split; [reflexivity|lia].
Qed.



(** X10: the pool cannot run for ever nor block while work is left.
    Every step of a worker either changes nothing or uses up at least one
    unit of the work left (one unit to receive a path, one for each line,
    one to leave the file); and as long as no worker has panicked, none is
    inside a print that never ends, and the pool has not finished, some
    worker has a step that uses up work. *)
Theorem pool_makes_progress `{GoLib} (cfg : Config) (fs : FileSystem)
        (p : Pool) :
  (forall i,
      step cfg fs i p = p
      \/ (poolLeft cfg fs (step cfg fs i p) < poolLeft cfg fs p)%nat)
  /\ (crashed p = false ->
      forallb (fun w => negb (isStuck w)) (workers p) = true ->
      workers p <> [] ->
      finished p = false ->
      exists i, (poolLeft cfg fs (step cfg fs i p) < poolLeft cfg fs p)%nat).
Proof.
  split; [intros i; apply step_poolLeft|].
  intros Hc Hs Hne Hfin.
  destruct (forallb isIdle (workers p)) eqn:Hidle.
  - unfold finished in Hfin. rewrite Hc, Hidle in Hfin. cbn in Hfin.
    destruct (chan p) as [|path rest] eqn:Hq; [discriminate|].
    exists 0%nat. destruct (step_poolLeft cfg fs 0 p) as [E|Hlt];
      [|exact Hlt].
    exfalso. unfold step in E. rewrite Hc in E.
    destruct (workers p) as [|w ws] eqn:Hw; [congruence|].
    cbn in Hidle. apply andb_true_iff in Hidle as [Hi _].
    destruct w; try discriminate. cbn [nth_error] in E. rewrite Hq in E.
    apply (f_equal chan) in E. cbn [chan] in E. rewrite Hq in E.
    apply (f_equal (@List.length _)) in E. cbn in E. lia.
  - exact (scanning_worker_steps cfg fs p Hc Hidle Hs).
Qed.

Lemma pool_makes_progress_witness :
  exists i,
    (@poolLeft sampleLib (sampleConfig "hello" true false) sampleFS
       (@step sampleLib (sampleConfig "hello" true false) sampleFS i
          (@startPool sampleLib (sampleConfig "hello" true false) sampleFS))
     < @poolLeft sampleLib (sampleConfig "hello" true false) sampleFS
         (@startPool sampleLib (sampleConfig "hello" true false) sampleFS))%nat.
Proof.
  apply (proj2 (@pool_makes_progress sampleLib
                  (sampleConfig "hello" true false) sampleFS _)).
  - reflexivity.
  - reflexivity.
  - discriminate.
  - reflexivity.
Defined.

(** ** Filters and errors of a search *)

(** X11: the two path filters only remove files.  When a second
    configuration starts at the same directory, excludes at least the
    directories the first excludes, and allows no extension the first does
    not allow, every path it sends to the workers is also sent under the
    first. *)
Theorem filters_only_remove `{GoLib} (cfg1 cfg2 : Config) (fs : FileSystem) :
  StartDir cfg1 = StartDir cfg2 ->
  incl (ExcludeDirs cfg1) (ExcludeDirs cfg2) ->
  (Exts cfg1 = [] \/ (Exts cfg2 <> [] /\ incl (Exts cfg2) (Exts cfg1))) ->
  forall path,
    In path (snd (walkAll cfg2 fs)) -> In path (snd (walkAll cfg1 fs)).
Proof.
  intros Hdir Hexcl Hext path. rewrite !walkAll_candidates. cbn [snd].
  unfold candidates, rootOccurrences. rewrite Hdir.
  rewrite !in_map_iff. intros (o & Hp & Ho). exists o. split; [exact Hp|].
  apply filter_In in Ho as [Hin Hc]. apply filter_In. split; [exact Hin|].
  unfold candidate in *.
  apply andb_true_iff in Hc as [Hc Hreg].
  apply andb_true_iff in Hc as [Hout Hallow].
  rewrite Hreg, andb_true_r. apply andb_true_iff. split.
  - unfold outsideExcluded in *. rewrite forallb_forall in *.
    intros d Hd. specialize (Hout d Hd).
    destruct (excluded cfg1 d) eqn:E; [|reflexivity].
    apply excluded_iff in E. apply Hexcl in E. apply excluded_iff in E.
    rewrite E in Hout. discriminate.
  - apply extAllowed_iff. apply extAllowed_iff in Hallow.
    destruct Hext as [Hnil|[Hne Hincl]]; [left; exact Hnil|right].
    destruct Hallow as [Hnil|(e & He & Heq)]; [contradiction|].
    exists e. split; [apply Hincl; exact He|exact Heq].
Qed.

Lemma filters_only_remove_witness :
  In (str "root/a.GO")
     (snd (@walkAll sampleLib (sampleConfig "hello" true false) sampleFS)).
Proof.
  apply (@filters_only_remove sampleLib
           (sampleConfig "hello" true false)
           (withExts (sampleConfig "hello" true false) [str "go"; str "md"])
           sampleFS eq_refl).
  - intros d Hd. exact Hd.
  - left. reflexivity.
  - cbn. tauto.
Defined.

(** X12: [Search] never reports an error.  [filepath.Walk] with the walk
    function of [Search] returns nil on every file tree, readable or not,
    so whenever [Search] returns, its error is nil. *)
Theorem search_never_reports_an_error `{GoLib} (cfg : Config)
        (fs : FileSystem) :
  fst (walkAll cfg fs) = None
  /\ (forall m f e, Search cfg fs = Returns (m, f, e) -> e = None).
Proof.
  split.
  - rewrite walkAll_candidates. reflexivity.
  - intros m f e. apply Search_error_nil.
Qed.

Lemma search_never_reports_an_error_witness :
  @Search sampleLib (sampleConfig "hello" true false) sampleFS
  = Returns (6, 3, None)
  /\ (None : option error) = None.
Proof.
  assert (Hs : @Search sampleLib (sampleConfig "hello" true false) sampleFS
               = Returns (6, 3, None)) by reflexivity.
  split; [exact Hs|].
  exact (proj2 (@search_never_reports_an_error sampleLib
                  (sampleConfig "hello" true false) sampleFS) 6 3 None Hs).
Defined.

Lemma Search_counts_ordered `{GoLib} (cfg : Config) (fs : FileSystem) m f e :
  Search cfg fs = Returns (m, f, e) -> 0 <= f <= m.
Proof.
  unfold Search. rewrite walkAll_candidates.
  destruct (drain _ _ _ _) as [t| |] eqn:E; try discriminate.
  cbn [result]. intros [= <- <- _].
  assert (Hnn : forall queue t0 t1,
             drain (normalize cfg) fs queue t0 = Returns t1 ->
             fileCount t0 <= fileCount t1).
  { induction queue as [|p queue IH]; intros t0 t1 Hd.
    - injection Hd as <-. lia.
    - cbn [drain] in Hd.
      destruct (processFile p (normalize cfg) fs t0) as [t2| |] eqn:Ep;
        try discriminate.
      apply IH in Hd. unfold processFile in Ep.
      destruct (openFile _ _ _) as [[re lines]|].
      + apply scanLines_counts in Ep. lia.
      + injection Ep as <-. exact Hd. }
  apply Hnn in E as E1. apply drain_invariant in E; cbn in *; lia.
Qed.

(** ** The command *)

Section RunFacts.
Context `{GoLib}.
Variables (flags : Cmd.Flags) (world : Cmd.World) (keyword : gostring).

Let counts := Cmd.countsOf flags world keyword.

(** What the loop over the search paths has done when it is over. *)
Lemma searchLoop_returns paths :
  forall st st',
    Cmd.searchLoop flags world keyword paths st = Returns st' ->
    (Cmd.totalMatches st', Cmd.totalFiles st')
    = addPair (Cmd.totalMatches st, Cmd.totalFiles st)
              (sumPairs (map counts (Cmd.searched world paths)))
    /\ Cmd.first st'
       = Cmd.first st
         && match Cmd.searched world paths with [] => true | _ => false end
    /\ Forall (fun path =>
                 exists m f,
                   Search (Cmd.configFor flags keyword path)
                          (Cmd.fsAt world path) = Returns (m, f, None))
              (Cmd.searched world paths)
    /\ exists more,
        Cmd.printed st' = Cmd.printed st ++ more
        /\ Cmd.announced more = Cmd.searched world paths
        /\ forallb (fun o => negb (Cmd.isSearchError o)) more = true
        /\ List.length (filter Cmd.isSeparator more)
           = (List.length (Cmd.searched world paths)
              - (if Cmd.first st then 1 else 0))%nat.
Proof.
  induction paths as [|path rest IH]; intros st st' Hl.
  - injection Hl as <-. cbn [Cmd.searched filter map sumPairs fold_right].
    rewrite andb_true_r. split; [|split; [|split]].
    + unfold addPair. cbn [fst snd]. f_equal; lia.
    + reflexivity.
    + constructor.
    + exists []. rewrite app_nil_r. cbn. repeat split.
  - cbn [Cmd.searchLoop] in Hl. unfold Cmd.searched. cbn [filter].
    fold (Cmd.searched world rest).
    destruct (Cmd.os_Stat world path) eqn:Hstat.
    1,3: destruct (Search (Cmd.configFor flags keyword path)
                          (Cmd.fsAt world path))
           as [[[m f] e]| |] eqn:Hs; try discriminate;
         pose proof (Search_error_nil _ _ _ _ _ Hs) as ->;
         apply IH in Hl as (Ht & Hf & Hall & more & Hp & Ha & He & Hsep);
         cbn [Cmd.totalMatches Cmd.totalFiles Cmd.first Cmd.printed] in *;
         (split; [|split; [|split; [|]]]);
         [ rewrite Ht; cbn [map sumPairs fold_right];
           fold (sumPairs (map counts (Cmd.searched world rest)));
           unfold counts at 2, Cmd.countsOf; rewrite Hs;
           unfold addPair; cbn [fst snd]; f_equal; lia
         | rewrite Hf; rewrite andb_false_r; reflexivity
         | constructor; [eauto|exact Hall]
         | destruct (Cmd.first st);
           [ exists ([Cmd.SearchingPath path; Cmd.PathSummary m f] ++ more)
           | exists ([Cmd.Separator; Cmd.SearchingPath path;
                      Cmd.PathSummary m f] ++ more) ];
           (split; [rewrite Hp; rewrite <- !app_assoc; reflexivity|]);
           (split; [cbn; rewrite Ha; reflexivity|]);
           (split; [cbn; exact He|]);
           cbn [app filter Cmd.isSeparator List.length]; rewrite Hsep; lia
         | .. ].
    + apply IH in Hl as (Ht & Hf & Hall & more & Hp & Ha & He & Hsep).
      cbn [Cmd.totalMatches Cmd.totalFiles Cmd.first Cmd.printed] in *.
      split; [exact Ht|]. split; [exact Hf|]. split; [exact Hall|].
      exists ([Cmd.PathNotExist path] ++ more).
      split; [rewrite Hp, <- app_assoc; reflexivity|].
      split; [exact Ha|]. split; [exact He|]. exact Hsep.
Qed.

(** The loop returns when every search it runs does. *)
Lemma searchLoop_total paths :
  Forall (fun path =>
            exists r,
              Search (Cmd.configFor flags keyword path) (Cmd.fsAt world path)
              = Returns r)
         (Cmd.searched world paths) ->
  forall st, exists st', Cmd.searchLoop flags world keyword paths st
                         = Returns st'.
Proof.
  induction paths as [|path rest IH]; intros Hall st; [eexists; reflexivity|].
  cbn [Cmd.searchLoop]. unfold Cmd.searched in Hall. cbn [filter] in Hall.
  fold (Cmd.searched world rest) in Hall.
  destruct (Cmd.os_Stat world path); [| apply IH; exact Hall |];
    inversion Hall as [|? ? [[[m f] e] Hs] Hrest]; subst; rewrite Hs;
    destruct e; apply IH; exact Hrest.
Qed.
End RunFacts.


Lemma summary_closingLines keyword paths st :
  Cmd.summary (Cmd.searchPathsOf (keyword :: paths)) st
  = closingLines paths (Cmd.totalMatches st, Cmd.totalFiles st).
Proof.
  destruct paths as [|p [|q rest]]; try reflexivity.
  unfold Cmd.summary, Cmd.searchPathsOf, closingLines.
  replace (1 <? len (keyword :: p :: q :: rest)) with true
    by (symmetry; apply Z.ltb_lt; unfold len; cbn [List.length]; lia).
  cbn [tl].
  replace (1 <? len (p :: q :: rest)) with true
    by (symmetry; apply Z.ltb_lt; unfold len; cbn [List.length]; lia).
  reflexivity.
Qed.

Lemma closingLines_plain paths total :
  Cmd.announced (closingLines paths total) = []
  /\ forallb (fun o => negb (Cmd.isSearchError o)) (closingLines paths total)
     = true
  /\ filter Cmd.isSeparator (closingLines paths total) = [].
Proof. destruct paths as [|p [|q rest]]; repeat split. Qed.

Lemma sumPairs_ordered (l : list (Z * Z)) :
  Forall (fun c => 0 <= snd c <= fst c) l ->
  0 <= snd (sumPairs l) <= fst (sumPairs l).
Proof.
  induction 1 as [|c l Hc _ IH]; cbn; [lia|].
  fold (sumPairs l). lia.
Qed.

Lemma countsOf_ordered `{GoLib} flags world keyword path :
  0 <= snd (Cmd.countsOf flags world keyword path)
    <= fst (Cmd.countsOf flags world keyword path).
Proof.
  unfold Cmd.countsOf.
  destruct (Search _ _) as [[[m f] e]| |] eqn:E; cbn; try lia.
  exact (Search_counts_ordered _ _ _ _ _ E).
Qed.

(** X13: the totals [Run] prints.  When [Run] returns, its output ends
    with the closing lines (the grand total when two or more paths were
    named, else the short form) and the counts they show are the sums of
    the counts [Search] returned for the paths that [os.Stat] does not
    report missing; the file count shown is at most the match count. *)
Theorem run_prints_the_sum_of_the_searches `{GoLib} (flags : Cmd.Flags)
        (world : Cmd.World) (keyword : gostring) (paths : list gostring)
        (out : list Cmd.Output) :
  Cmd.Run flags world (keyword :: paths) = Returns out ->
  let total :=
    sumPairs (map (Cmd.countsOf flags world keyword)
                  (Cmd.searched world
                     (Cmd.searchPathsOf (keyword :: paths)))) in
  (exists body, out = body ++ closingLines paths total)
  /\ 0 <= snd total <= fst total.
Proof.
  intros Hrun total. split.
  - unfold Cmd.Run in Hrun.
    destruct (Cmd.searchLoop _ _ _ _ _) as [st| |] eqn:Hl; try discriminate.
    injection Hrun as <-.
    apply searchLoop_returns in Hl as (Ht & _).
    exists (Cmd.printed st). f_equal.
    rewrite summary_closingLines, Ht. f_equal.
    cbn [Cmd.totalMatches Cmd.totalFiles]. fold total.
    destruct total. reflexivity.
  - apply sumPairs_ordered. apply Forall_forall. intros c Hc.
    apply in_map_iff in Hc as (p & <- & _). apply countsOf_ordered.
Qed.

Lemma run_prints_the_sum_of_the_searches_witness :
  exists body,
    @Cmd.Run sampleLib Cmd.defaultFlags Cmd.sampleWorld
             [str "hello"; str "a"; str "gone"; str "b"]
    = Returns (body ++ [Cmd.TotalBanner; Cmd.TotalFound 6 6;
                        Cmd.TotalDuration]).
Proof.
  assert (Hr : exists out,
             @Cmd.Run sampleLib Cmd.defaultFlags Cmd.sampleWorld
                      [str "hello"; str "a"; str "gone"; str "b"]
             = Returns out) by (eexists; reflexivity).
  destruct Hr as [out Hr].
  destruct (proj1 (@run_prints_the_sum_of_the_searches sampleLib
              Cmd.defaultFlags Cmd.sampleWorld (str "hello")
              [str "a"; str "gone"; str "b"] out Hr)) as [body Hb].
  exists body. rewrite Hr, Hb. reflexivity.
Defined.



(** X15: [Run] never prints the error line.  Its branch for a failed
    search cannot be taken, since [Search] returns no error: every path
    that is searched gets its summary line instead. *)
Theorem run_never_prints_an_error `{GoLib} (flags : Cmd.Flags)
        (world : Cmd.World) (args : list gostring) (out : list Cmd.Output) :
  Cmd.Run flags world args = Returns out ->
  forall err, ~ In (Cmd.SearchError err) out.
Proof.
  intros Hrun err Hin. unfold Cmd.Run in Hrun.
  destruct args as [|keyword paths]; [discriminate|].
  destruct (Cmd.searchLoop _ _ _ _ _) as [st| |] eqn:Hl; try discriminate.
  injection Hrun as <-.
  apply searchLoop_returns in Hl as (_ & _ & _ & more & Hp & _ & He & _).
  cbn [Cmd.printed app] in Hp. rewrite Hp, summary_closingLines in Hin.
  apply in_app_or in Hin as [Hin|Hin].
  - rewrite forallb_forall in He. specialize (He _ Hin). discriminate.
  - destruct (closingLines_plain paths
                (Cmd.totalMatches st, Cmd.totalFiles st)) as (_ & Hc & _).
    rewrite forallb_forall in Hc. specialize (Hc _ Hin). discriminate.
Qed.

Lemma run_never_prints_an_error_witness :
  exists out,
    @Cmd.Run sampleLib Cmd.defaultFlags Cmd.sampleWorld
             [str "hello"; str "gone"] = Returns out
    /\ ~ In (Cmd.SearchError SkipDir) out.
Proof.
  eexists.
  assert (Hr : @Cmd.Run sampleLib Cmd.defaultFlags Cmd.sampleWorld
                        [str "hello"; str "gone"] = Returns _)
    by reflexivity.
  split; [exact Hr|].
  exact (@run_never_prints_an_error sampleLib Cmd.defaultFlags
           Cmd.sampleWorld _ _ Hr SkipDir).
Defined.

(** X16: [Run] returns exactly when every search it runs returns: the
    searches of the paths that [os.Stat] does not report missing.  A
    missing path never keeps [Run] from returning, and a panic or an
    endless scan in one search is one of the whole command. *)
Theorem run_returns_iff_searches_return `{GoLib} (flags : Cmd.Flags)
        (world : Cmd.World) (keyword : gostring) (paths : list gostring) :
  (exists out, Cmd.Run flags world (keyword :: paths) = Returns out)
  <-> Forall (fun path =>
                exists r,
                  Search (Cmd.configFor flags keyword path)
                         (Cmd.fsAt world path) = Returns r)
             (Cmd.searched world (Cmd.searchPathsOf (keyword :: paths))).
Proof.
  unfold Cmd.Run. split.
  - intros [out Hrun].
    destruct (Cmd.searchLoop _ _ _ _ _) as [st| |] eqn:Hl; try discriminate.
    apply searchLoop_returns in Hl as (_ & _ & Hall & _).
    eapply Forall_impl; [|exact Hall].
    intros p (m & f & Hs). eauto.
  - intros Hall.
    destruct (searchLoop_total flags world keyword _ Hall
                {| Cmd.totalMatches := 0; Cmd.totalFiles := 0;
                   Cmd.first := true; Cmd.printed := [] |}) as [st ->].
    eauto.
Qed.

Lemma searchLoop_withDir `{GoLib} flags world d keyword paths :
  forall st,
    Cmd.searchLoop (withDir flags d) world keyword paths st
    = Cmd.searchLoop flags world keyword paths st.
Proof.
  induction paths as [|path rest IH]; intros st; [reflexivity|].
  cbn [Cmd.searchLoop].
  change (Cmd.configFor (withDir flags d) keyword path)
    with (Cmd.configFor flags keyword path).
  destruct (Cmd.os_Stat world path); rewrite ?IH; try reflexivity;
    destruct (Search _ _) as [[[m f] [e|]]| |]; rewrite ?IH; reflexivity.
Qed.

(** X17: the [--dir] flag has no effect on [Run], whatever the arguments;
    and with the keyword as only argument [Run] does what it does when the
    current directory is named as the one search path. *)
Theorem run_ignores_the_dir_flag `{GoLib} (flags : Cmd.Flags)
        (world : Cmd.World) (d : gostring) :
  (forall args, Cmd.Run (withDir flags d) world args
                = Cmd.Run flags world args)
  /\ (forall keyword,
         Cmd.Run flags world [keyword]
         = Cmd.Run flags world [keyword; str "."]).
Proof.
  split.
  - intros [|keyword paths]; [reflexivity|].
    unfold Cmd.Run. rewrite searchLoop_withDir. reflexivity.
  - intros keyword. reflexivity.
Qed.

(** ** Whole files in regex mode *)

Lemma scanLines_regex `{GoLib} (cfg : Config) (re : RegexpT) lines :
  Regexp cfg = true ->
  forall fm t t',
    scanLines cfg (Some re) lines fm t = Returns t' ->
    matchCount t' = matchCount t + list_sum_Z (map (regexMatches re) lines)
    /\ fileCount t'
       = fileCount t
         + (if fm then 0
            else if existsb (fun l => 0 <? regexMatches re l) lines
                 then 1 else 0).
Proof.
  intros Hre. induction lines as [|line rest IH]; intros fm t t' Hs.
  - injection Hs as <-. cbn. destruct fm; lia.
  - cbn [scanLines] in Hs. cbn [map list_sum_Z fold_right existsb].
    fold (list_sum_Z (map (regexMatches re) rest)).
    unfold processLine in Hs. rewrite Hre in Hs. unfold regexMatches at 1 3.
    pose proof (len_nonneg (FindAllStringIndex re line)) as Hnn.
    destruct (FindStringIndex re line).
    + destruct (len (FindAllStringIndex re line) =? 0) eqn:E.
      * apply Z.eqb_eq in E. rewrite E. cbn [Z.ltb Z.compare orb].
        apply IH in Hs. lia.
      * apply Z.eqb_neq in E. rewrite locked_spec in Hs.
        destruct (regexLoop _ _ _ _); try discriminate.
        apply IH in Hs as [Hm Hf]. cbn [matchCount fileCount] in Hm, Hf.
        replace (0 <? len (FindAllStringIndex re line)) with true
          by (symmetry; apply Z.ltb_lt; lia).
        cbn [orb]. destruct fm; lia.
    + cbn [Z.ltb Z.compare orb]. apply IH in Hs. lia.
Qed.

(** X18: in regex mode a file that is scanned to its end adds to
    [matchCount], for every line on which [FindStringIndex] finds a match,
    the number of matches [FindAllStringIndex] reports, and adds 1 to
    [fileCount] exactly when some line adds a match. *)
Theorem regex_file_counts_every_match `{GoLib} (cfg : Config)
        (fs : FileSystem) (path : gostring) (lines : list gostring)
        (re : RegexpT) (t t' : Totals) :
  Regexp cfg = true ->
  fs_open fs path = Some lines ->
  regexp_Compile (if IgnoreCase cfg then str "(?i)" ++ Keyword cfg
                  else Keyword cfg) = Some re ->
  processFile path cfg fs t = Returns t' ->
  matchCount t' = matchCount t + list_sum_Z (map (regexMatches re) lines)
  /\ fileCount t'
     = fileCount t
       + (if existsb (fun l => 0 <? regexMatches re l) lines then 1 else 0).
Proof.
  intros Hre Hopen Hcomp. unfold processFile, openFile.
  rewrite Hopen, Hre. cbv zeta.
  destruct (regexp_Compile _) as [re'|] eqn:E; [|discriminate].
  assert (re' = re) as -> by congruence.
  intros Hs. exact (scanLines_regex cfg re lines Hre _ _ _ Hs).
Qed.

Lemma regex_file_counts_every_match_witness :
  @processFile sampleLib (str "root/a.GO") (sampleConfig "aa" false true)
               sampleFS {| matchCount := 0; fileCount := 0 |}
  = Returns {| matchCount := 2; fileCount := 1 |}.
Proof.
  assert (Hp : exists t',
             @processFile sampleLib (str "root/a.GO")
                          (sampleConfig "aa" false true) sampleFS
                          {| matchCount := 0; fileCount := 0 |}
             = Returns t') by (eexists; reflexivity).
  destruct Hp as [t' Hp]. rewrite Hp. f_equal.
  destruct (@regex_file_counts_every_match sampleLib
              (sampleConfig "aa" false true) sampleFS (str "root/a.GO")
              [str "hello aa aa"; str "zz"; str "Hello"] (false, str "aa")
              _ t' eq_refl eq_refl eq_refl Hp) as [Hm Hf].
  destruct t' as [m f]. cbn in Hm, Hf. congruence.
Defined.

(** ** Entries the walk cannot read *)

Lemma occurrences_pass_over `{GoLib} path dirs name st es2 :
  st = None \/ st = Some NDirErr ->
  forall es1,
    occurrences path (NDir (es1 ++ (name, st) :: es2)) dirs
    = occurrences path (NDir (es1 ++ es2)) dirs.
Proof.
  intros Hst es1. cbn [occurrences].
  induction es1 as [|[n [c|]] es1 IH]; cbn [app].
  - destruct Hst as [-> | ->]; reflexivity.
  - rewrite IH. reflexivity.
  - exact IH.
Qed.

Lemma walk_pass_over `{GoLib} cfg path name st es1 es2 q :
  st = None \/ st = Some NDirErr ->
  walk (walkFn cfg) path (NDir (es1 ++ (name, st) :: es2)) q
  = walk (walkFn cfg) path (NDir (es1 ++ es2)) q.
Proof.
  intros Hst. destruct (excluded cfg path) eqn:Hex.
  - cbn [walk walkFn infoOf IsDir]. rewrite Hex. reflexivity.
  - destruct (walk_walkFn cfg (NDir (es1 ++ (name, st) :: es2)) path [] q
                eq_refl) as (e1 & -> & [->|(_ & _ & E)]); [|congruence].
    destruct (walk_walkFn cfg (NDir (es1 ++ es2)) path [] q eq_refl)
      as (e2 & -> & [->|(_ & _ & E)]); [|congruence].
    rewrite (occurrences_pass_over path [] name st es2 Hst es1).
    reflexivity.
Qed.

(** X19: an entry whose [Lstat] fails, and a directory whose names cannot
    be read, stop nothing: the walk of the directory that holds them sends
    the same paths and gives the same answer as if they were not there,
    wherever they stand among its entries. *)
Theorem walk_passes_over_unreadable_entries `{GoLib} (cfg : Config)
        (path name : gostring) (es1 es2 : list (gostring * option Node))
        (q : list gostring) :
  walk (walkFn cfg) path (NDir (es1 ++ (name, None) :: es2)) q
  = walk (walkFn cfg) path (NDir (es1 ++ es2)) q
  /\ walk (walkFn cfg) path (NDir (es1 ++ (name, Some NDirErr) :: es2)) q
     = walk (walkFn cfg) path (NDir (es1 ++ es2)) q.
Proof. split; apply walk_pass_over; auto. Qed.

(** ** Searches that cannot return *)

Section DoomedFacts.
Context `{GoLib}.
Variables (cfg : Config) (fs : FileSystem).

Lemma scanLines_returns_iff re lines :
  forall fm t,
    (exists t', scanLines cfg re lines fm t = Returns t')
    <-> existsb (lineFails cfg re) lines = false.
Proof.
  induction lines as [|line rest IH]; intros fm t.
  - cbn. split; eauto.
  - cbn [scanLines existsb]. unfold lineFails at 1.
    destruct (processLine cfg re line) as [|k pr].
    + cbn [orb]. apply IH.
    + destruct (locked k fm t) as [t1 fm1].
      destruct pr; cbn [orb]; [apply IH| |];
        split; try discriminate; intros [t' Ht']; discriminate.
Qed.

Lemma drain_returns_iff queue :
  forall t,
    (exists t', drain cfg fs queue t = Returns t')
    <-> existsb (fileFails cfg fs) queue = false.
Proof.
  induction queue as [|path rest IH]; intros t.
  - cbn. split; eauto.
  - cbn [drain existsb]. unfold processFile, fileFails at 1.
    destruct (openFile cfg fs path) as [[re lines]|]; [|apply IH].
    destruct (existsb (lineFails cfg re) lines) eqn:E.
    + cbn [orb]. split; [|discriminate]. intros [t' Ht'].
      destruct (scanLines cfg re lines false t) as [t1| |] eqn:Es;
        try discriminate.
      assert (Hx : exists t1, scanLines cfg re lines false t = Returns t1)
        by eauto.
      apply scanLines_returns_iff in Hx. congruence.
    + cbn [orb]. apply (scanLines_returns_iff re lines false t) in E.
      destruct E as [t1 ->]. apply IH.
Qed.

Lemma existsb_setWorker_new (f : Worker -> bool) ws :
  forall i w w',
    nth_error ws i = Some w -> f w' = true ->
    existsb f (setWorker i w' ws) = true.
Proof.
  induction ws as [|w0 ws IH]; intros [|i] w w' Hn Hf; try discriminate;
    cbn [setWorker existsb].
  - rewrite Hf. reflexivity.
  - rewrite (IH i w w' Hn Hf). apply orb_true_r.
Qed.

Lemma existsb_setWorker_keep (f : Worker -> bool) ws :
  forall i w w',
    nth_error ws i = Some w -> f w = false ->
    existsb f ws = true ->
    existsb f (setWorker i w' ws) = true.
Proof.
  induction ws as [|w0 ws IH]; intros [|i] w w' Hn Hf Hex; try discriminate;
    cbn [setWorker existsb] in *.
  - injection Hn as ->. rewrite Hf in Hex. cbn in Hex. rewrite Hex.
    apply orb_true_r.
  - apply orb_true_iff in Hex as [->|Hex]; [reflexivity|].
    rewrite (IH i w w' Hn Hf Hex). apply orb_true_r.
Qed.

(** A doomed pool stays doomed. *)
Lemma step_doomed i p :
  doomed cfg fs p = true -> doomed cfg fs (step cfg fs i p) = true.
Proof.
  intros Hd. unfold step. destruct (crashed p) eqn:Hc; [exact Hd|].
  destruct (nth_error (workers p) i) as [w|] eqn:Hn; [|exact Hd].
  unfold doomed in Hd. rewrite Hc in Hd. cbn [orb] in Hd.
  assert (Hgo : forall w' c t,
             (workerFails cfg w' = true
              \/ (workerFails cfg w = false
                  /\ existsb (workerFails cfg) (workers p) = true)
              \/ existsb (fileFails cfg fs) c = true) ->
             doomed cfg fs
               {| chan := c; workers := setWorker i w' (workers p);
                  totals := t; crashed := false |} = true).
  { intros w' c t [Hw|[[Hw Hex]|Hq]]; unfold doomed; cbn [crashed workers chan orb].
    - rewrite (existsb_setWorker_new _ _ _ _ _ Hn Hw). reflexivity.
    - rewrite (existsb_setWorker_keep _ _ _ _ _ Hn Hw Hex). reflexivity.
    - rewrite Hq. apply orb_true_r. }
  apply orb_true_iff in Hd.
  destruct w as [|re [|line rest] fm|re l fm].
  - destruct (chan p) as [|path rest] eqn:Hq.
    + unfold doomed. rewrite Hc, Hq. cbn [orb].
      destruct Hd as [-> | Hd]; [reflexivity|discriminate].
    + apply Hgo. destruct Hd as [Hd|Hd]; [right; left; auto|].
      cbn [existsb] in Hd. apply orb_true_iff in Hd as [Hd|Hd];
        [left|right; right; exact Hd].
      unfold fileFails in Hd.
      destruct (openFile cfg fs path) as [[re lines]|];
        [exact Hd|discriminate].
  - apply Hgo. destruct Hd as [Hd|Hd]; [right; left; auto|right; right; exact Hd].
  - assert (Hrest : lineFails cfg re line = false ->
                    forall fm',
                      workerFails cfg (Scanning re rest fm') = true
                      \/ (workerFails cfg (Scanning re (line :: rest) fm)
                          = false
                          /\ existsb (workerFails cfg) (workers p) = true)
                      \/ existsb (fileFails cfg fs) (chan p) = true).
    { intros Hl fm'. destruct Hd as [Hd|Hd]; [|right; right; exact Hd].
      cbn [workerFails existsb]. rewrite Hl. cbn [orb].
      destruct (existsb (lineFails cfg re) rest); [left; reflexivity|].
      right. left. auto. }
    unfold lineFails in Hrest.
    destruct (processLine cfg re line) as [|k pr].
    + apply Hgo. apply Hrest. reflexivity.
    + destruct (locked k fm (totals p)) as [t' fm'].
      destruct pr.
      * apply Hgo. apply Hrest. reflexivity.
      * reflexivity.
      * apply Hgo. left. reflexivity.
  - unfold doomed. rewrite Hc. cbn [orb].
    destruct Hd as [-> | ->]; [reflexivity|apply orb_true_r].
Qed.

Lemma run_doomed sched :
  forall p, doomed cfg fs p = true -> doomed cfg fs (run cfg fs sched p) = true.
Proof.
  induction sched as [|i sched IH]; intros p Hd; [exact Hd|].
  rewrite run_cons. apply IH, step_doomed, Hd.
Qed.

Lemma finished_not_doomed p : finished p = true -> doomed cfg fs p = false.
Proof.
  unfold finished, doomed. rewrite !andb_true_iff, negb_true_iff.
  intros [[-> Hq] Hw]. destruct (chan p); [|discriminate]. cbn.
  rewrite orb_false_r.
  induction (workers p) as [|w ws IH]; [reflexivity|].
  cbn in Hw. apply andb_true_iff in Hw as [Hi Hw].
  destruct w; try discriminate. cbn. exact (IH Hw).
Qed.
End DoomedFacts.

(** X20: the pool of a search has a schedule on which it finishes exactly
    when the search with the files scanned one after the other returns.
    If the print of some line of some candidate file panics or never ends,
    no schedule and no number of workers lets the search finish. *)
Theorem pool_finishes_iff_search_returns `{GoLib} (cfg : Config)
        (fs : FileSystem) :
  (exists r, Search cfg fs = Returns r)
  <-> (exists sched, finished (searchRun cfg fs sched) = true).
Proof.
  unfold Search, searchRun, startPool. rewrite walkAll_candidates.
  cbn [snd]. destruct (normalize_fields cfg) as (_ & _ & _ & _ & _ & _ & Hw).
  split.
  - intros [r Hr].
    destruct (drain _ _ _ _) as [t| |] eqn:E; try discriminate.
    destruct (Z.to_nat (Workers (normalize cfg))) as [|k] eqn:Ek; [lia|].
    cbn [repeat].
    destruct (drain_schedule _ _ _ _ _ (repeat Idle k) E) as [sched Hs].
    exists sched. rewrite Hs. unfold finished.
    cbn [crashed chan workers forallb isIdle negb andb].
    clear. induction k as [|k IH]; [reflexivity|exact IH].
  - intros [sched Hfin].
    apply (finished_not_doomed (normalize cfg) fs) in Hfin.
    destruct (doomed (normalize cfg) fs
                {| chan := candidates (normalize cfg) fs;
                   workers := repeat Idle
                                (Z.to_nat (Workers (normalize cfg)));
                   totals := {| matchCount := 0; fileCount := 0 |};
                   crashed := false |}) eqn:Hd.
    + apply (run_doomed (normalize cfg) fs sched) in Hd. congruence.
    + unfold doomed in Hd. cbn [crashed chan workers orb] in Hd.
      apply orb_false_iff in Hd as [_ Hq].
      apply (drain_returns_iff (normalize cfg) fs _
               {| matchCount := 0; fileCount := 0 |}) in Hq.
      destruct Hq as [t' ->]. eauto.
Qed.

(** ** The counts of a literal search *)

Lemma drain_literal `{GoLib} (cfg : Config) (fs : FileSystem) queue :
  Regexp cfg = false ->
  forall t t',
    drain cfg fs queue t = Returns t' ->
    matchCount t'
    = matchCount t
      + list_sum_Z
          (map (fun path => len (filter (literalMatch cfg) (fileLines fs path)))
               queue)
    /\ fileCount t'
       = fileCount t
         + len (filter (fun path =>
                          existsb (literalMatch cfg) (fileLines fs path))
                       queue).
Proof.
  intros Hre. induction queue as [|path rest IH]; intros t t' Hd.
  - injection Hd as <-. cbn. lia.
  - cbn [drain] in Hd.
    destruct (processFile path cfg fs t) as [t1| |] eqn:Ep; try discriminate.
    apply IH in Hd as [Hm Hf]. cbn [map list_sum_Z fold_right filter].
    fold (list_sum_Z
            (map (fun path =>
                    len (filter (literalMatch cfg) (fileLines fs path)))
                 rest)).
    unfold fileLines at 1 3.
    destruct (fs_open fs path) as [lines|] eqn:Ho.
    + destruct (literal_file_counts_matching_lines_aux cfg fs path lines
                  t t1 Hre Ho Ep) as [Hm1 Hf1].
      destruct (existsb (literalMatch cfg) lines);
        unfold len in *; cbn [List.length]; lia.
    + unfold processFile, openFile in Ep. rewrite Ho in Ep.
      injection Ep as <-. cbn [filter existsb]. unfold len in *.
      cbn [List.length]. lia.
Qed.

(** X21: the counts of a literal search.  When a search in literal mode
    returns, its match count is the number of lines, over all candidate
    files that can be opened, that contain the keyword (lower case against
    lower case when case is ignored), and its file count is the number of
    candidate files with at least one such line. *)
Theorem literal_search_counts_matching_lines `{GoLib} (cfg : Config)
        (fs : FileSystem) (m f : Z) (e : option error) :
  Regexp cfg = false ->
  Search cfg fs = Returns (m, f, e) ->
  m = list_sum_Z
        (map (fun path => len (filter (literalMatch cfg) (fileLines fs path)))
             (candidates cfg fs))
  /\ f = len (filter (fun path =>
                        existsb (literalMatch cfg) (fileLines fs path))
                     (candidates cfg fs)).
Proof.
  intros Hre. unfold Search. rewrite walkAll_candidates.
  destruct (drain _ _ _ _) as [t| |] eqn:E; try discriminate.
  cbn [result]. intros [= <- <- _].
  assert (Hn : normalize cfg = cfg
               \/ normalize cfg = withWorkers cfg 4).
  { unfold normalize. destruct (Workers cfg <=? 0); [right|left];
      reflexivity. }
  assert (E' : drain cfg fs (candidates cfg fs)
                     {| matchCount := 0; fileCount := 0 |} = Returns t).
  { destruct Hn as [Hn|Hn]; rewrite Hn in E; [exact E|].
    rewrite drain_withWorkers, candidates_withWorkers in E. exact E. }
  apply (drain_literal cfg fs _ Hre) in E'. cbn in E'. exact E'.
Qed.

Lemma literal_search_counts_matching_lines_witness :
  @Search sampleLib (sampleConfig "hello" true false) sampleFS
  = Returns (6, 3, None)
  /\ 6 = list_sum_Z
           (map (fun path =>
                   len (filter (@literalMatch sampleLib
                                  (sampleConfig "hello" true false))
                               (fileLines sampleFS path)))
                (@candidates sampleLib (sampleConfig "hello" true false)
                             sampleFS)).
Proof.
  assert (Hs : @Search sampleLib (sampleConfig "hello" true false) sampleFS
               = Returns (6, 3, None)) by reflexivity.
  split; [exact Hs|].
  exact (proj1 (@literal_search_counts_matching_lines sampleLib
                  (sampleConfig "hello" true false) sampleFS 6 3 None
                  eq_refl Hs)).
Defined.
